(** * esp32_powermeter_mqtt: pulse capture, accumulation and reporting

    A shallow embedding of [esp32_powermeter_mqtt.ino].  The sketch keeps its
    state in file-scope globals; here they are the fields of one record that
    every routine takes and returns.  [double] is IEEE 754 binary64, modelled
    by the kernel's primitive floats; [unsigned long] and [unsigned int] are
    32 bits wide on the ESP32 and are modelled by [Z] with the wrap-around
    written out.  [millis()] is an input of each routine that reads it. *)

From Stdlib Require Import ZArith Lia List Bool Reals Lra.
From Stdlib.Strings Require Import Byte.
From Stdlib Require Import Uint63 Floats.
Import ListNotations.

Set Warnings "-inexact-float".

Local Open Scope Z_scope.

(** ** Machine arithmetic *)

Definition wrap32 (n : Z) : Z := n mod 2 ^ 32.

Definition UINT_MAX : Z := 2 ^ 32 - 1.

(** The conversion [(double)n] of a 32-bit unsigned value (exact). *)
Definition to_double (n : Z) : float := PrimFloat.of_uint63 (Uint63.of_Z n).

(** ** Constants of the sketch *)

Definition HOUR : float := 3600%float.
Definition PULSES_KWH_RES : float := 1%float.
Definition SECOND_ISR_PERIOD : float := 0.09%float.
Definition MAX_POWER : float := 7040%float.
Definition uiUpdate : Z := 60.

(** ** Globals *)

Record globals : Set := mkGlobals {
  ulPreviousMillis : Z;
  ulCurrentMillis : Z;
  dPulsePeriod : float;
  dPower : float;
  ulStartTime : Z;
  dKWh : float;
  uiIsrCount : Z;
  dTotalW : float
}.

Definition initial : globals :=
  {| ulPreviousMillis := 0; ulCurrentMillis := 0;
     dPulsePeriod := 0%float; dPower := 0%float;
     ulStartTime := 0; dKWh := 0%float; uiIsrCount := 0; dTotalW := 0%float |}.

Definition set_ulPreviousMillis (v : Z) (g : globals) : globals :=
  mkGlobals v (ulCurrentMillis g) (dPulsePeriod g) (dPower g)
            (ulStartTime g) (dKWh g) (uiIsrCount g) (dTotalW g).

Definition set_ulCurrentMillis (v : Z) (g : globals) : globals :=
  mkGlobals (ulPreviousMillis g) v (dPulsePeriod g) (dPower g)
            (ulStartTime g) (dKWh g) (uiIsrCount g) (dTotalW g).

Definition set_dPulsePeriod (v : float) (g : globals) : globals :=
  mkGlobals (ulPreviousMillis g) (ulCurrentMillis g) v (dPower g)
            (ulStartTime g) (dKWh g) (uiIsrCount g) (dTotalW g).

Definition set_dPower (v : float) (g : globals) : globals :=
  mkGlobals (ulPreviousMillis g) (ulCurrentMillis g) (dPulsePeriod g) v
            (ulStartTime g) (dKWh g) (uiIsrCount g) (dTotalW g).

Definition set_ulStartTime (v : Z) (g : globals) : globals :=
  mkGlobals (ulPreviousMillis g) (ulCurrentMillis g) (dPulsePeriod g) (dPower g)
            v (dKWh g) (uiIsrCount g) (dTotalW g).

Definition set_dKWh (v : float) (g : globals) : globals :=
  mkGlobals (ulPreviousMillis g) (ulCurrentMillis g) (dPulsePeriod g) (dPower g)
            (ulStartTime g) v (uiIsrCount g) (dTotalW g).

Definition set_uiIsrCount (v : Z) (g : globals) : globals :=
  mkGlobals (ulPreviousMillis g) (ulCurrentMillis g) (dPulsePeriod g) (dPower g)
            (ulStartTime g) (dKWh g) v (dTotalW g).

Definition set_dTotalW (v : float) (g : globals) : globals :=
  mkGlobals (ulPreviousMillis g) (ulCurrentMillis g) (dPulsePeriod g) (dPower g)
            (ulStartTime g) (dKWh g) (uiIsrCount g) v.

(** ** The interrupt routine *)

(** [dPulsePeriod = (double)(millis() - ulStartTime) / 1000.0] *)
Definition measured_period (millis : Z) (g : globals) : float :=
  (to_double (wrap32 (millis - ulStartTime g)) / 1000)%float.

(** [dPower = (PULSES_KWH_RES / (double)dPulsePeriod) * HOUR] *)
Definition pulse_power (period : float) : float :=
  ((PULSES_KWH_RES / period) * HOUR)%float.

(** [if (dPower > MAX_POWER) dPower = 0.0] *)
Definition filter_power (p : float) : float :=
  if (MAX_POWER <? p)%float then 0%float else p.

(** [(dPulsePeriod / HOUR) * (dPower / 1000.0)] *)
Definition pulse_energy (period p : float) : float :=
  ((period / HOUR) * (p / 1000))%float.

Definition isr (millis : Z) (g : globals) : globals :=
  let g := set_dPulsePeriod (measured_period millis g) g in
  if (dPulsePeriod g <=? SECOND_ISR_PERIOD)%float then
    set_dPulsePeriod 0%float g
  else
    let g := set_uiIsrCount (wrap32 (uiIsrCount g + 1)) g in
    let g := set_dPower (pulse_power (dPulsePeriod g)) g in
    let g := set_dPower (filter_power (dPower g)) g in
    let g := set_dTotalW (dTotalW g + dPower g)%float g in
    set_dKWh (dKWh g + pulse_energy (dPulsePeriod g) (dPower g))%float g.

(** [millis() - ulStartTime], the milliseconds on which the handler works. *)
Definition elapsed_ms (millis : Z) (g : globals) : Z := wrap32 (millis - ulStartTime g).

(** Several edges serviced one after the other, oldest first. *)
Definition service (edges : list Z) (g : globals) : globals :=
  fold_left (fun g millis => isr millis g) edges g.

(** ** The MQTT receiver callback *)

(** What is left of the process after a routine returns: [ESP.restart()]
    discards every global. *)
Inductive outcome : Set :=
| Continue (g : globals)
| Restart.

(** The routine inspects [payload[0]] only; [None] stands for a read outside
    the buffer it was handed. *)
Definition callback (payload : list byte) (length : Z) (g : globals) : option outcome :=
  match payload with
  | [] => None
  | c :: _ =>
      if Byte.eqb c "c"%byte then Some (Continue (set_dKWh 0%float g))
      else if Byte.eqb c "r"%byte then Some Restart
      else Some (Continue g)
  end.

(** ** Publishing *)

(** A retained message handed to [client.publish]; the constructor stands for
    the topic, the argument for the number that [String(...)] prints. *)
Inductive message : Set :=
| watts (v : float)
| kWh (v : float)
| lwt_on.

Record world : Set := mkWorld {
  mem : globals;
  sent : list message
}.

Definition on_mem (f : globals -> globals) (w : world) : world :=
  mkWorld (f (mem w)) (sent w).

Definition publish (m : message) (w : world) : world :=
  mkWorld (mem w) (sent w ++ [m]).

Definition boot : world := mkWorld initial [].

(** ** The init routine *)

(** [ulStartTime = millis(); ulPreviousMillis = ulStartTime;] and, once the
    broker session is up, the [lwt] announcement.  Pin and interrupt wiring,
    WiFi association, the broker session with its retries and OTA are the
    collaborators' business and leave the globals alone. *)
Definition setup (millis : Z) (w : world) : world :=
  let w := on_mem (set_ulStartTime millis) w in
  let w := on_mem (fun g => set_ulPreviousMillis (ulStartTime g) g) w in
  publish lwt_on w.

(** ** The main loop *)

(** The statements of the reporting block of [loop], one constructor each. *)
Inductive stmt : Set :=
| SetPrevious      (* ulPreviousMillis = ulCurrentMillis; *)
| ComputeAverage   (* dPower = dTotalW / uiIsrCount; *)
| PublishPower     (* client.publish(power_topic, String(dPower).c_str(), true); *)
| PublishKWh       (* client.publish(kWh_topic, String(dKWh).c_str(), true); *)
| ClearPower       (* dPower = 0.0; *)
| ClearTotalW      (* dTotalW = 0.0; *)
| ClearIsrCount    (* uiIsrCount = 0; *)
| ClearKWh.        (* dKWh = 0.0; *)

Definition exec (s : stmt) (w : world) : world :=
  match s with
  | SetPrevious => on_mem (fun g => set_ulPreviousMillis (ulCurrentMillis g) g) w
  | ComputeAverage =>
      on_mem (fun g => set_dPower (dTotalW g / to_double (uiIsrCount g))%float g) w
  | PublishPower => publish (watts (dPower (mem w))) w
  | PublishKWh => publish (kWh (dKWh (mem w))) w
  | ClearPower => on_mem (set_dPower 0%float) w
  | ClearTotalW => on_mem (set_dTotalW 0%float) w
  | ClearIsrCount => on_mem (set_uiIsrCount 0) w
  | ClearKWh => on_mem (set_dKWh 0%float) w
  end.

Definition report_block : list stmt :=
  [SetPrevious; ComputeAverage; PublishPower; PublishKWh;
   ClearPower; ClearTotalW; ClearIsrCount; ClearKWh].

Definition run (p : list stmt) (w : world) : world :=
  fold_left (fun w s => exec s w) p w.

(** [ulCurrentMillis - ulPreviousMillis >= (uiUpdate * 1000)] *)
Definition window_elapsed (g : globals) : bool :=
  wrap32 (uiUpdate * 1000) <=? wrap32 (ulCurrentMillis g - ulPreviousMillis g).

(** From [ulCurrentMillis = millis()] to the end of the reporting block. *)
Definition loop_report (millis : Z) (w : world) : world :=
  let w := on_mem (set_ulCurrentMillis millis) w in
  if window_elapsed (mem w) then run report_block w else w.

(** One pass of [loop]: [client_state] is what [client.state()] returns and
    [millis_setup] what [millis()] returns inside the nested [setup()].  A
    command that [client.loop()] receives reaches [callback], a routine of
    its own above; the delays only pass time. *)
Definition loop (millis client_state millis_setup : Z) (w : world) : world :=
  let w := loop_report millis w in
  if client_state <? 0 then setup millis_setup w else w.

(** ** Interrupts during the reporting block *)

(** The handler preempts the main context between two statements: each
    statement comes with the edges serviced just before it. *)
Fixpoint run_preempted (p : list (list Z * stmt)) (w : world) : world :=
  match p with
  | [] => w
  | (edges, s) :: p' => run_preempted p' (exec s (on_mem (service edges) w))
  end.

Definition edges_of (p : list (list Z * stmt)) : list Z := concat (map fst p).

(** The block executed as one unit, with [before] serviced ahead of it and
    [after] behind it. *)
Definition atomic_at (before after : list Z) (w : world) : world :=
  on_mem (service after) (run report_block (on_mem (service before) w)).

(** What a drain is accountable for: the messages sent and the three totals
    left for the next window. *)
Definition observed (w : world) : list message * Z * float * float :=
  (sent w, uiIsrCount (mem w), dTotalW (mem w), dKWh (mem w)).

(** A preempted run reports and leaves what the block executed as one unit
    would, at some point of the stream of edges: every edge is counted in
    this report or left for the next one. *)
Definition linearizable (p : list (list Z * stmt)) (w : world) : Prop :=
  exists before after,
    before ++ after = edges_of p /\
    observed (run_preempted p w) = observed (atomic_at before after w).


(** The edges of a stream that pass the handler's test
    [dPulsePeriod <= SECOND_ISR_PERIOD], and what the handler computes for
    each of them. *)
Definition counted (g : globals) (edges : list Z) : list Z :=
  filter (fun t => negb (measured_period t g <=? SECOND_ISR_PERIOD)%float) edges.

Definition sample_power (g : globals) (t : Z) : float :=
  filter_power (pulse_power (measured_period t g)).

Definition sample_energy (g : globals) (t : Z) : float :=
  pulse_energy (measured_period t g) (sample_power g t).

(** What a stream of edges makes of [uiIsrCount], [dTotalW], [dKWh] and
    [dPower]: one more for each counted edge, the powers added in arrival
    order, the energies added in arrival order, the power written last. *)
Definition count_after (g : globals) (edges : list Z) (c : Z) : Z :=
  fold_left (fun c _ => wrap32 (c + 1)) (counted g edges) c.

Definition power_sum (g : globals) (edges : list Z) (acc : float) : float :=
  fold_left (fun a t => (a + sample_power g t)%float) (counted g edges) acc.

Definition energy_sum (g : globals) (edges : list Z) (acc : float) : float :=
  fold_left (fun a t => (a + sample_energy g t)%float) (counted g edges) acc.

Definition last_power (g : globals) (edges : list Z) (p : float) : float :=
  fold_left (fun _ t => sample_power g t) (counted g edges) p.

(** ** Scenarios used below *)

(** One edge a second after [setup], then the main loop reads the clock at the
    end of the first window. *)
Definition one_sample_window : world :=
  on_mem (set_ulCurrentMillis 60000) (on_mem (isr 1000) (setup 0 boot)).

(** The reporting block with one more edge serviced after both publishes and
    before the first reset. *)
Definition edge_before_resets : list (list Z * stmt) :=
  [([], SetPrevious); ([], ComputeAverage); ([], PublishPower); ([], PublishKWh);
   ([60000], ClearPower); ([], ClearTotalW); ([], ClearIsrCount); ([], ClearKWh)].

(** The reporting block preempted only ahead of the division. *)
Definition edges_before_average (a b : list Z) : list (list Z * stmt) :=
  [(a, SetPrevious); (b, ComputeAverage); ([], PublishPower); ([], PublishKWh);
   ([], ClearPower); ([], ClearTotalW); ([], ClearIsrCount); ([], ClearKWh)].



(** ** Predicates used in the statements *)

(** Classes of binary64 values, read off the specification-level view
    [Prim2SF] of a float: sign [sx] and not NaN; sign [sx] and neither NaN
    nor an infinity; what compares [>= 0]. *)
Definition signed_as (sx : bool) (x : spec_float) : Prop :=
  match x with
  | S754_zero s | S754_infinity s | S754_finite s _ _ => s = sx
  | S754_nan => False
  end.

Definition finite_as (sx : bool) (x : spec_float) : Prop :=
  match x with
  | S754_zero s | S754_finite s _ _ => s = sx
  | _ => False
  end.

Definition ge_zero (x : spec_float) : Prop :=
  match x with
  | S754_zero _ => True
  | S754_infinity s | S754_finite s _ _ => s = false
  | S754_nan => False
  end.

Definition fsigned (x : float) : Prop := signed_as false (Prim2SF x).
Definition ffinite (x : float) : Prop := finite_as false (Prim2SF x).

(** [x >= 0] as the program would test it. *)
Definition nonneg (x : float) : Prop := (0 <=? x)%float = true.

(** The invariants of the accumulator. *)
Definition accumulator_ok (g : globals) : Prop :=
  0 <= uiIsrCount g /\ nonneg (dTotalW g) /\ nonneg (dKWh g).

(** ** The energy of one pulse *)

(** The doubles two places below and above the double nearest to 0.001. *)
Definition energy_lo : float := 0.0009999999999999995%float.
Definition energy_hi : float := 0.0010000000000000005%float.

(** ** Real values of floats *)

(** Powers of two. *)
Definition bpow (e : Z) : R := powerRZ 2 e.

(** [x] lies in [[m, m+1)] at the place that [l] names. *)
Definition located (m : Z) (l : location) (x : R) : Prop :=
  match l with
  | loc_Exact => x = IZR m
  | loc_Inexact Lt => (IZR m < x < IZR m + / 2)%R
  | loc_Inexact Eq => x = (IZR m + / 2)%R
  | loc_Inexact Gt => (IZR m + / 2 < x < IZR m + 1)%R
  end.

(** The value of a finite positive float. *)
Definition value (m : positive) (e : Z) : R := (IZR (Zpos m) * bpow e)%R.

(** [v] is [x] up to a relative error of [2 ^ -53]. *)
Definition approx (v x : R) : Prop :=
  (- (bpow (-53) * x) <= v - x <= bpow (-53) * x)%R.

(** [x] is a positive normal float of value [v]. *)
Definition is_normal (x : spec_float) (v : R) : Prop :=
  exists m e,
    x = S754_finite false m e /\ Zpos (digits2_pos m) = 53 /\ v = value m e.

(** The same for a primitive float. *)
Definition fnormal (f : float) (v : R) : Prop := is_normal (Prim2SF f) v.

(** The unit roundoff of binary64. *)
Definition ulp_half : R := bpow (-53).

(** A range that keeps every operation far from overflow and underflow. *)
Definition wide (x : R) : Prop := (/ 1099511627776 <= x <= 1099511627776)%R.

(** * The routines in closed form *)

(** ** The interrupt routine: its two outcomes and what it leaves alone *)

Lemma isr_rejected millis g :
  (measured_period millis g <=? SECOND_ISR_PERIOD)%float = true ->
  isr millis g = set_dPulsePeriod 0%float g.
Proof.
  intros H. unfold isr. cbn [dPulsePeriod set_dPulsePeriod]. rewrite H.
  destruct g; reflexivity.
Qed.

Lemma isr_accepted millis g :
  (measured_period millis g <=? SECOND_ISR_PERIOD)%float = false ->
  let i := measured_period millis g in
  let p := filter_power (pulse_power i) in
  isr millis g =
  mkGlobals (ulPreviousMillis g) (ulCurrentMillis g) i p (ulStartTime g)
            (dKWh g + pulse_energy i p)%float
            (wrap32 (uiIsrCount g + 1))
            (dTotalW g + p)%float.
Proof.
  intros H. unfold isr. cbn [dPulsePeriod set_dPulsePeriod]. rewrite H.
  destruct g; reflexivity.
Qed.

Lemma isr_cases millis g :
  ((measured_period millis g <=? SECOND_ISR_PERIOD)%float = true /\
   isr millis g = set_dPulsePeriod 0%float g) \/
  ((measured_period millis g <=? SECOND_ISR_PERIOD)%float = false /\
   isr millis g =
   mkGlobals (ulPreviousMillis g) (ulCurrentMillis g)
             (measured_period millis g)
             (filter_power (pulse_power (measured_period millis g)))
             (ulStartTime g)
             (dKWh g + pulse_energy (measured_period millis g)
                         (filter_power (pulse_power (measured_period millis g))))%float
             (wrap32 (uiIsrCount g + 1))
             (dTotalW g + filter_power (pulse_power (measured_period millis g)))%float).
Proof.
  destruct (measured_period millis g <=? SECOND_ISR_PERIOD)%float eqn:H.
  - left. split; [reflexivity|]. now apply isr_rejected.
  - right. split; [reflexivity|]. now apply isr_accepted.
Qed.

(** A field that neither outcome of the handler touches. *)
Ltac isr_frame millis g :=
  destruct (isr_cases millis g) as [[_ ->] | [_ ->]]; reflexivity.

Lemma isr_ulStartTime millis g : ulStartTime (isr millis g) = ulStartTime g.
Proof. isr_frame millis g. Qed.

Lemma isr_ulCurrentMillis millis g :
  ulCurrentMillis (isr millis g) = ulCurrentMillis g.
Proof. isr_frame millis g. Qed.

Lemma isr_ulPreviousMillis millis g :
  ulPreviousMillis (isr millis g) = ulPreviousMillis g.
Proof. isr_frame millis g. Qed.

Lemma isr_set_ulPreviousMillis millis v g :
  isr millis (set_ulPreviousMillis v g) = set_ulPreviousMillis v (isr millis g).
Proof.
  unfold isr. cbn [dPulsePeriod set_dPulsePeriod].
  change (measured_period millis (set_ulPreviousMillis v g))
    with (measured_period millis g).
  destruct (measured_period millis g <=? SECOND_ISR_PERIOD)%float; reflexivity.
Qed.


Lemma service_ulCurrentMillis edges :
  forall g, ulCurrentMillis (service edges g) = ulCurrentMillis g.
Proof.
  induction edges as [|t edges IH]; intros g; [reflexivity|].
  cbn. fold (service edges (isr t g)). now rewrite IH, isr_ulCurrentMillis.
Qed.

Lemma service_set_ulPreviousMillis edges :
  forall v g,
    service edges (set_ulPreviousMillis v g) = set_ulPreviousMillis v (service edges g).
Proof.
  induction edges as [|t edges IH]; intros v g; [reflexivity|].
  cbn. fold (service edges (isr t (set_ulPreviousMillis v g))).
  fold (service edges (isr t g)).
  now rewrite isr_set_ulPreviousMillis, IH.
Qed.

Lemma service_cons t edges g : service (t :: edges) g = service edges (isr t g).
Proof. reflexivity. Qed.

Lemma wrap32_succ_add c k : wrap32 (wrap32 (c + 1) + k) = wrap32 (c + (1 + k)).
Proof. unfold wrap32. rewrite Z.add_mod_idemp_l by (cbv; discriminate). f_equal. lia. Qed.

Lemma service_app a b g : service (a ++ b) g = service b (service a g).
Proof. unfold service. apply fold_left_app. Qed.

Lemma on_mem_service_nil w : on_mem (service []) w = w.
Proof. destruct w; reflexivity. Qed.

Lemma on_mem_service_app a b w :
  on_mem (service b) (on_mem (service a) w) = on_mem (service (a ++ b)) w.
Proof. unfold on_mem. cbn [mem sent]. now rewrite service_app. Qed.

Lemma service_exec_SetPrevious edges w :
  on_mem (service edges) (exec SetPrevious w) =
  exec SetPrevious (on_mem (service edges) w).
Proof.
  destruct w as [g out]. unfold exec, on_mem. cbn [mem sent].
  now rewrite service_set_ulPreviousMillis, service_ulCurrentMillis.
Qed.

(** ** The reporting block and the loop, in closed form *)

Lemma run_report_block w :
  run report_block w =
  mkWorld
    (mkGlobals (ulCurrentMillis (mem w)) (ulCurrentMillis (mem w))
               (dPulsePeriod (mem w)) 0%float (ulStartTime (mem w))
               0%float 0 0%float)
    (sent w ++ [watts (dTotalW (mem w) / to_double (uiIsrCount (mem w)))%float;
                kWh (dKWh (mem w))]).
Proof.
  destruct w as [g out]. cbv -[to_double app PrimFloat.div].
  rewrite <- app_assoc. reflexivity.
Qed.

Lemma loop_report_cases millis w :
  (window_elapsed (set_ulCurrentMillis millis (mem w)) = true /\
   loop_report millis w = run report_block (on_mem (set_ulCurrentMillis millis) w)) \/
  (window_elapsed (set_ulCurrentMillis millis (mem w)) = false /\
   loop_report millis w = on_mem (set_ulCurrentMillis millis) w).
Proof.
  unfold loop_report. cbn [mem on_mem].
  destruct (window_elapsed (set_ulCurrentMillis millis (mem w))); [left | right];
    split; reflexivity.
Qed.

Lemma setup_accumulator millis w :
  uiIsrCount (mem (setup millis w)) = uiIsrCount (mem w) /\
  dTotalW (mem (setup millis w)) = dTotalW (mem w) /\
  dKWh (mem (setup millis w)) = dKWh (mem w).
Proof. destruct w as [g out]. repeat split. Qed.

(** With no sample in the window the divisor is zero and so is the dividend:
    the quotient is not a number. *)
Lemma empty_window_average w :
  uiIsrCount (mem w) = 0 -> dTotalW (mem w) = 0%float ->
  (dTotalW (mem w) / to_double (uiIsrCount (mem w)))%float = nan.
Proof. intros -> ->. reflexivity. Qed.

(** * Binary64 arithmetic

    Facts about the specification [SpecFloat] of the primitive operations,
    for binary64 ([prec = 53], [emax = 1024]).  The first half follows signs
    and sizes: rounding keeps the sign of an exact result, a result whose
    size stays below the overflow threshold is finite, adding [+0.0] changes
    nothing but the sign of [-0.0].  The second half follows values: a normal
    result of a multiplication or a division is the exact one up to a relative
    error of [2 ^ -53]. *)

Module Binary64.

(** ** Binary digits *)

Lemma Zdigits2_nonneg m : 0 <= Zdigits2 m.
Proof. destruct m; cbn; lia. Qed.

Lemma digits2_pos_bounds p :
  2 ^ (Zpos (digits2_pos p) - 1) <= Zpos p < 2 ^ Zpos (digits2_pos p).
Proof.
  induction p as [p IH | p IH |]; cbn [digits2_pos].
  - rewrite Pos2Z.inj_succ.
    replace (Z.succ (Zpos (digits2_pos p)) - 1)
      with (Z.succ (Zpos (digits2_pos p) - 1)) by lia.
    rewrite !Z.pow_succ_r by lia. lia.
  - rewrite Pos2Z.inj_succ.
    replace (Z.succ (Zpos (digits2_pos p)) - 1)
      with (Z.succ (Zpos (digits2_pos p) - 1)) by lia.
    rewrite !Z.pow_succ_r by lia. lia.
  - cbn. lia.
Qed.

Lemma Zdigits2_bounds m :
  0 < m -> 2 ^ (Zdigits2 m - 1) <= m < 2 ^ Zdigits2 m.
Proof. destruct m; try lia. intros _. apply digits2_pos_bounds. Qed.

Lemma Zdigits2_le m k : 0 <= m < 2 ^ k -> 0 <= k -> Zdigits2 m <= k.
Proof.
  intros [H0 Hk] Hk0.
  destruct (Z.eq_dec m 0) as [->|Hm]; [cbn; lia|].
  destruct (Zdigits2_bounds m ltac:(lia)) as [Hlo _].
  destruct (Z_le_gt_dec (Zdigits2 m) k) as [|Hgt]; [assumption|exfalso].
  assert (2 ^ k <= 2 ^ (Zdigits2 m - 1)) by (apply Z.pow_le_mono_r; lia).
  lia.
Qed.

Lemma Zdigits2_ge m k : 2 ^ (k - 1) <= m -> 0 < k -> k <= Zdigits2 m.
Proof.
  intros Hlo Hk.
  assert (Hm : 0 < m).
  { assert (0 < 2 ^ (k - 1)) by (apply Z.pow_pos_nonneg; lia). lia. }
  destruct (Zdigits2_bounds m Hm) as [_ Hd].
  destruct (Z_le_gt_dec k (Zdigits2 m)) as [|Hgt]; [assumption|exfalso].
  assert (2 ^ Zdigits2 m <= 2 ^ (k - 1)) by (apply Z.pow_le_mono_r; [lia|lia]).
  lia.
Qed.

Lemma Zdigits2_eq m k : 2 ^ (k - 1) <= m < 2 ^ k -> 0 < k -> Zdigits2 m = k.
Proof.
  intros [Hlo Hhi] Hk.
  assert (Hm : 0 < m).
  { assert (0 < 2 ^ (k - 1)) by (apply Z.pow_pos_nonneg; lia). lia. }
  pose proof (Zdigits2_le m k ltac:(lia) ltac:(lia)) as Hle.
  destruct (Zdigits2_bounds m Hm) as [_ Hd].
  destruct (Z_lt_le_dec (Zdigits2 m) k) as [Hlt|]; [exfalso | lia].
  assert (2 ^ Zdigits2 m <= 2 ^ (k - 1)) by (apply Z.pow_le_mono_r; lia).
  lia.
Qed.

Lemma Zdigits2_succ m : 0 <= m -> Zdigits2 (m + 1) <= Zdigits2 m + 1.
Proof.
  intros Hm. pose proof (Zdigits2_nonneg m) as Hd.
  apply Zdigits2_le; [|lia].
  destruct (Z.eq_dec m 0) as [->|Hne]; [cbn; lia|].
  destruct (Zdigits2_bounds m ltac:(lia)) as [_ Hhi].
  rewrite Z.pow_add_r by lia. change (2 ^ 1) with 2. lia.
Qed.

Lemma digits2_pos_iter_xO m d :
  Zpos (digits2_pos (Pos.iter xO m d)) = Zpos (digits2_pos m) + Zpos d.
Proof.
  induction d as [|d IH] using Pos.peano_ind.
  - cbn. lia.
  - rewrite Pos.iter_succ. cbn [digits2_pos]. lia.
Qed.

Lemma Zpos_iter_xO p k : Zpos (Pos.iter xO p k) = Zpos p * 2 ^ Zpos k.
Proof.
  induction k as [|k IH] using Pos.peano_ind.
  - cbn. lia.
  - rewrite Pos.iter_succ, Pos2Z.inj_succ, Z.pow_succ_r by lia.
    rewrite Pos2Z.inj_xO, IH. lia.
Qed.

Lemma bounded_digits m e :
  bounded prec emax m e = true -> Zpos (digits2_pos m) + e <= 1024 /\ e <= 971.
Proof.
  unfold bounded, canonical_mantissa, fexp, SpecFloat.emin, prec, emax.
  intros H. apply andb_true_iff in H as [H1 H2].
  apply Z.eqb_eq in H1. apply Z.leb_le in H2. lia.
Qed.

Lemma fexp_le x : x <= 1024 -> fexp prec emax x <= 971.
Proof. unfold fexp, SpecFloat.emin, prec, emax. lia. Qed.

Lemma fexp_normal x : -1074 <= x - 53 -> fexp prec emax x = x - 53.
Proof. unfold fexp, SpecFloat.emin, prec, emax. lia. Qed.

(** ** Shifting and rounding: sign and size *)

Lemma shr_1_digits mrs d :
  0 <= shr_m mrs -> Zdigits2 (shr_m mrs) <= Z.max 0 d ->
  0 <= shr_m (shr_1 mrs) /\ Zdigits2 (shr_m (shr_1 mrs)) <= Z.max 0 (d - 1).
Proof.
  destruct mrs as [m r s]. cbn [shr_m]. intros Hm Hd.
  destruct m as [|[p|p|]|p]; cbn [shr_1 shr_m Zdigits2 digits2_pos] in *; try lia.
Qed.

Lemma iter_shr_1_digits p :
  forall mrs d,
    0 <= shr_m mrs -> Zdigits2 (shr_m mrs) <= Z.max 0 d ->
    0 <= shr_m (iter_pos shr_1 p mrs) /\
    Zdigits2 (shr_m (iter_pos shr_1 p mrs)) <= Z.max 0 (d - Zpos p).
Proof.
  induction p as [p IH | p IH |]; intros mrs d Hm Hd; cbn [iter_pos].
  - destruct (shr_1_digits mrs d Hm Hd) as [H1 H2].
    destruct (IH _ _ H1 H2) as [H3 H4].
    destruct (IH _ _ H3 H4) as [H5 H6].
    split; [assumption|]. rewrite Pos2Z.inj_xI. 
    replace (d - (2 * Zpos p + 1)) with (d - 1 - Zpos p - Zpos p) by lia. assumption.
  - destruct (IH _ _ Hm Hd) as [H3 H4].
    destruct (IH _ _ H3 H4) as [H5 H6].
    split; [assumption|]. rewrite Pos2Z.inj_xO.
    replace (d - 2 * Zpos p) with (d - Zpos p - Zpos p) by lia. assumption.
  - now apply shr_1_digits.
Qed.

Lemma shr_record_of_loc_m m l : shr_m (shr_record_of_loc m l) = m.
Proof. destruct l as [|[]]; reflexivity. Qed.

Lemma loc_of_shr_record_of_loc m l : loc_of_shr_record (shr_record_of_loc m l) = l.
Proof. destruct l as [|[]]; reflexivity. Qed.

Lemma shr_fexp_bounds m e l :
  0 <= m ->
  0 <= shr_m (fst (shr_fexp prec emax m e l)) /\
  snd (shr_fexp prec emax m e l) = Z.max e (fexp prec emax (Zdigits2 m + e)) /\
  Zdigits2 (shr_m (fst (shr_fexp prec emax m e l))) + snd (shr_fexp prec emax m e l)
    <= Z.max (Zdigits2 m + e) (snd (shr_fexp prec emax m e l)).
Proof.
  intros Hm. unfold shr_fexp, shr.
  pose proof (Zdigits2_nonneg m) as Hd.
  destruct (fexp prec emax (Zdigits2 m + e) - e) as [|n|n] eqn:En;
    cbn [fst snd]; rewrite ?shr_record_of_loc_m.
  - repeat split; lia.
  - pose proof (iter_shr_1_digits n (shr_record_of_loc m l) (Zdigits2 m)) as H.
    rewrite shr_record_of_loc_m in H. specialize (H Hm ltac:(lia)).
    repeat split; lia.
  - repeat split; lia.
Qed.

Lemma round_nearest_even_bounds m l :
  0 <= m ->
  0 <= round_nearest_even m l /\
  Zdigits2 (round_nearest_even m l) <= Zdigits2 m + 1.
Proof.
  intros Hm. pose proof (Zdigits2_succ m Hm).
  unfold round_nearest_even.
  destruct l as [|[]]; try destruct (Z.even m); split; lia.
Qed.

Lemma finite_as_signed sx x : finite_as sx x -> signed_as sx x.
Proof. destruct x; cbn; tauto. Qed.

Lemma binary_round_aux_signed sx m e l :
  0 <= m -> signed_as sx (binary_round_aux prec emax sx m e l).
Proof.
  intros Hm. unfold binary_round_aux.
  destruct (shr_fexp_bounds m e l Hm) as (H1 & _ & _).
  destruct (shr_fexp prec emax m e l) as [mrs' e'] eqn:E1. cbn [fst snd] in H1.
  set (m2 := round_nearest_even (shr_m mrs') (loc_of_shr_record mrs')).
  destruct (round_nearest_even_bounds (shr_m mrs') (loc_of_shr_record mrs') H1)
    as [H2 _].
  fold m2 in H2.
  destruct (shr_fexp_bounds m2 e' loc_Exact H2) as (H3 & _ & _).
  destruct (shr_fexp prec emax m2 e' loc_Exact) as [mrs'' e''] eqn:E2.
  cbn [fst snd] in H3.
  destruct (shr_m mrs'') as [|q|q]; [reflexivity | | lia].
  destruct (e'' <=? emax - prec); reflexivity.
Qed.

Lemma binary_round_aux_finite sx m e l :
  0 <= m -> e <= 971 -> Zdigits2 m + e <= 1023 ->
  finite_as sx (binary_round_aux prec emax sx m e l).
Proof.
  intros Hm He Hd. unfold binary_round_aux.
  destruct (shr_fexp_bounds m e l Hm) as (H1 & E1' & D1).
  destruct (shr_fexp prec emax m e l) as [mrs' e'] eqn:E1. cbn [fst snd] in H1, E1', D1.
  set (m2 := round_nearest_even (shr_m mrs') (loc_of_shr_record mrs')).
  destruct (round_nearest_even_bounds (shr_m mrs') (loc_of_shr_record mrs') H1)
    as [H2 D2].
  fold m2 in H2, D2.
  destruct (shr_fexp_bounds m2 e' loc_Exact H2) as (H3 & E2' & D3).
  destruct (shr_fexp prec emax m2 e' loc_Exact) as [mrs'' e''] eqn:E2.
  cbn [fst snd] in H3, E2', D3.
  pose proof (fexp_le (Zdigits2 m + e) ltac:(lia)) as F1.
  assert (He' : e' <= 971) by lia.
  pose proof (fexp_le (Zdigits2 m2 + e') ltac:(lia)) as F2.
  assert (He'' : e'' <= 971) by lia.
  destruct (shr_m mrs'') as [|q|q]; [reflexivity | | lia].
  replace (e'' <=? emax - prec) with true; [reflexivity|].
  symmetry. apply Z.leb_le. unfold emax, prec. lia.
Qed.

Lemma binary_round_finite sx m e :
  e <= 971 -> Zpos (digits2_pos m) + e <= 1023 ->
  finite_as sx (binary_round prec emax sx m e).
Proof.
  intros He Hd. unfold binary_round, shl_align.
  destruct (fexp prec emax (Zpos (digits2_pos m) + e) - e) as [|d|d] eqn:Ed.
  - apply binary_round_aux_finite; cbn [Zdigits2]; lia.
  - apply binary_round_aux_finite; cbn [Zdigits2]; lia.
  - apply binary_round_aux_finite; cbn [Zdigits2]; try lia.
    rewrite digits2_pos_iter_xO. lia.
Qed.

Lemma binary_round_signed sx m e : signed_as sx (binary_round prec emax sx m e).
Proof.
  unfold binary_round.
  destruct (shl_align m e (fexp prec emax (Zpos (digits2_pos m) + e))) as [mz ez].
  apply binary_round_aux_signed. lia.
Qed.

Lemma binary_normalize_finite z :
  0 <= z < 2 ^ 63 -> finite_as false (binary_normalize prec emax z 0 false).
Proof.
  intros Hz. destruct z as [|m|m]; [reflexivity | | lia].
  cbn [binary_normalize]. apply binary_round_finite; [lia|].
  pose proof (Zdigits2_le (Zpos m) 63 Hz ltac:(lia)) as H. cbn [Zdigits2] in H. lia.
Qed.

(** ** The operations: sign and overflow *)

Lemma SFdiv_core_binary_bounds mx ex my ey :
  let '(q, e', _) := SFdiv_core_binary prec emax (Zpos mx) ex (Zpos my) ey in
  0 <= q /\
  e' <= fexp prec emax (Zpos (digits2_pos mx) + ex - (Zpos (digits2_pos my) + ey)) /\
  Zdigits2 q + e' <=
    Z.max e' (Zpos (digits2_pos mx) + ex - (Zpos (digits2_pos my) + ey) + 1).
Proof.
  unfold SFdiv_core_binary. cbn [Zdigits2].
  set (dx := Zpos (digits2_pos mx)). set (dy := Zpos (digits2_pos my)).
  set (e' := Z.min (fexp prec emax (dx + ex - (dy + ey))) (ex - ey)).
  set (s := ex - ey - e').
  assert (Hs : 0 <= s) by (unfold s, e'; lia).
  set (m' := match s with
             | Z0 => Zpos mx
             | Zpos _ => Z.shiftl (Zpos mx) s
             | Zneg _ => 0
             end).
  assert (Hm' : m' = Zpos mx * 2 ^ s).
  { unfold m'. destruct s as [|p|p] eqn:Es; [cbn; lia | | lia].
    now rewrite Z.shiftl_mul_pow2 by lia. }
  pose proof (Z_div_mod m' (Zpos my) ltac:(lia)) as Hdiv.
  destruct (Z.div_eucl m' (Zpos my)) as [q r]. destruct Hdiv as [Hq Hr].
  destruct (digits2_pos_bounds mx) as [_ Hx]. fold dx in Hx.
  destruct (digits2_pos_bounds my) as [Hy _]. fold dy in Hy.
  assert (Hp : 0 < 2 ^ s) by (apply Z.pow_pos_nonneg; lia).
  assert (Hq0 : 0 <= q) by nia.
  assert (Hmx : m' < 2 ^ (dx + s)).
  { rewrite Hm', Z.pow_add_r by (unfold dx; lia). nia. }
  split; [assumption|]. split; [unfold e'; lia|].
  assert (Hdq : Zdigits2 q <= Z.max 0 (dx + s - dy + 1)).
  { destruct (Z_le_gt_dec 0 (dx + s - dy + 1)) as [Hk|Hk].
    - rewrite Z.max_r by assumption. apply Zdigits2_le; [|assumption].
      split; [assumption|].
      assert (Hpy : 0 < 2 ^ (dy - 1)) by (apply Z.pow_pos_nonneg; unfold dy; lia).
      assert (Hsplit : 2 ^ (dx + s) = 2 ^ (dx + s - dy + 1) * 2 ^ (dy - 1)).
      { rewrite <- Z.pow_add_r by (unfold dy; lia). f_equal. lia. }
      nia.
    - assert (Hle : 2 ^ (dx + s) <= 2 ^ (dy - 1)) by (apply Z.pow_le_mono_r; lia).
      assert (q = 0) by nia. subst q. cbn. lia. }
  unfold s in Hdq. lia.
Qed.

Lemma SFdiv_signed sx mx ex sy my ey :
  signed_as (xorb sx sy)
    (SFdiv prec emax (S754_finite sx mx ex) (S754_finite sy my ey)).
Proof.
  unfold SFdiv.
  pose proof (SFdiv_core_binary_bounds mx ex my ey) as H.
  destruct (SFdiv_core_binary prec emax (Zpos mx) ex (Zpos my) ey) as [[q e'] l].
  now apply binary_round_aux_signed.
Qed.

Lemma SFdiv_finite sx mx ex sy my ey :
  bounded prec emax mx ex = true ->
  2 <= Zpos (digits2_pos my) + ey ->
  finite_as (xorb sx sy)
    (SFdiv prec emax (S754_finite sx mx ex) (S754_finite sy my ey)).
Proof.
  intros Hb Hy. unfold SFdiv.
  destruct (bounded_digits _ _ Hb) as [Hd He].
  pose proof (SFdiv_core_binary_bounds mx ex my ey) as H.
  destruct (SFdiv_core_binary prec emax (Zpos mx) ex (Zpos my) ey) as [[q e'] l].
  destruct H as (Hq & He' & Hdq).
  pose proof (fexp_le (Zpos (digits2_pos mx) + ex - (Zpos (digits2_pos my) + ey))
                ltac:(lia)) as F.
  apply binary_round_aux_finite; lia.
Qed.

Lemma SFmul_signed x y :
  signed_as false x -> finite_as false y -> y <> S754_zero false \/ finite_as false x ->
  signed_as false (SFmul prec emax x y).
Proof.
  destruct x as [sx|sx| |sx mx ex], y as [sy|sy| |sy my ey]; cbn;
    intros Hx Hy Hxy; subst; try tauto; try reflexivity.
  apply (binary_round_aux_signed false). lia.
Qed.

Lemma SFmul_zero_r x :
  finite_as false x -> SFmul prec emax x (S754_zero false) = S754_zero false.
Proof.
  destruct x as [sx|sx| |sx mx ex]; cbn; intros Hx; subst; tauto || reflexivity.
Qed.

Lemma SFleb_zero x : SFleb (S754_zero false) x = true <-> ge_zero x.
Proof.
  destruct x as [s|s| |s m e]; cbn; try destruct s; cbn;
    split; congruence || tauto || discriminate.
Qed.

Lemma SFleb_same_exponent m1 m2 e :
  Zpos m1 <= Zpos m2 ->
  SFleb (S754_finite false m1 e) (S754_finite false m2 e) = true.
Proof.
  intros H. unfold SFleb, SFcompare. rewrite Z.compare_refl.
  change (Pos.compare_cont Eq m1 m2) with (Z.compare (Zpos m1) (Zpos m2)).
  destruct (Z.compare_spec (Zpos m1) (Zpos m2)); [reflexivity | reflexivity | lia].
Qed.

Lemma SFadd_ge_zero x y :
  ge_zero x -> signed_as false y -> ge_zero (SFadd prec emax x y).
Proof.
  destruct x as [sx|sx| |sx mx ex], y as [sy|sy| |sy my ey]; cbn;
    intros Hx Hy; subst; try tauto; try reflexivity.
  - now destruct sx.
  - cbn [cond_Zopp binary_normalize Z.add].
    pose proof (binary_round_signed false
      (fst (shl_align mx ex (Z.min ex ey)) + fst (shl_align my ey (Z.min ex ey)))
      (Z.min ex ey)) as H.
    destruct (binary_round prec emax false _ _); cbn in *; tauto.
Qed.

Lemma SFadd_zero_r x :
  x <> S754_zero true -> SFadd prec emax x (S754_zero false) = x.
Proof. intros H. destruct x as [[]|[]| |s m e]; try reflexivity. now elim H. Qed.

(** ** The same on primitive floats *)

Lemma ffinite_fsigned x : ffinite x -> fsigned x.
Proof. apply finite_as_signed. Qed.

Lemma div_finite x c mc ec :
  ffinite x -> Prim2SF c = S754_finite false mc ec ->
  2 <= Zpos (digits2_pos mc) + ec ->
  ffinite (x / c).
Proof.
  unfold ffinite. intros Hx Hc Hd. rewrite div_spec, Hc. unfold SF64div.
  pose proof (Prim2SF_valid x) as Hv.
  destruct (Prim2SF x) as [s|s| |s m e]; cbn in Hx; try tauto; subst s.
  - reflexivity.
  - now apply (SFdiv_finite false m e false mc ec).
Qed.

Lemma div_1000_finite x : ffinite x -> ffinite (x / 1000).
Proof.
  intros Hx. apply (div_finite x 1000%float 8796093022208000 (-43) Hx); [reflexivity|].
  cbn. lia.
Qed.

Lemma add_nonneg x y : nonneg x -> fsigned y -> nonneg (x + y).
Proof.
  unfold nonneg, fsigned. rewrite !leb_spec, add_spec.
  change (Prim2SF 0) with (S754_zero false).
  rewrite !SFleb_zero. apply SFadd_ge_zero.
Qed.

Lemma add_zero_r x : x <> neg_zero -> (x + 0)%float = x.
Proof.
  intros Hx. apply Prim2SF_inj. rewrite add_spec.
  change (Prim2SF 0) with (S754_zero false).
  apply SFadd_zero_r. intros H. apply Hx.
  rewrite <- (SF2Prim_Prim2SF x), H. reflexivity.
Qed.

(** ** Powers of two as reals *)

Lemma bpow_pos e : (0 < bpow e)%R.
Proof. apply powerRZ_lt. lra. Qed.

Lemma bpow_add a b : bpow (a + b) = (bpow a * bpow b)%R.
Proof. apply powerRZ_add. lra. Qed.

Lemma bpow_opp e : bpow (- e) = (/ bpow e)%R.
Proof. apply powerRZ_neg'. Qed.

Lemma bpow_0 : bpow 0 = 1%R.
Proof. reflexivity. Qed.

Lemma bpow_1 : bpow 1 = 2%R.
Proof. unfold bpow, powerRZ. simpl. lra. Qed.

Lemma bpow_succ e : bpow (e + 1) = (2 * bpow e)%R.
Proof. rewrite bpow_add, bpow_1. lra. Qed.

Lemma bpow_pred e : bpow (e - 1) = (bpow e / 2)%R.
Proof.
  replace e with ((e - 1) + 1) at 2 by lia. rewrite bpow_succ. lra.
Qed.

Lemma bpow_IZR k : 0 <= k -> bpow k = IZR (2 ^ k).
Proof.
  intros Hk. rewrite <- (Z2Nat.id k Hk). unfold bpow.
  rewrite <- pow_powerRZ. now rewrite pow_IZR.
Qed.

Lemma bpow_neg_IZR k : 0 <= k -> bpow (- k) = (/ IZR (2 ^ k))%R.
Proof. intros Hk. now rewrite bpow_opp, bpow_IZR. Qed.

Lemma bpow_ge_1 k : 0 <= k -> (1 <= bpow k)%R.
Proof.
  intros Hk. rewrite bpow_IZR by assumption. apply IZR_le.
  assert (0 < 2 ^ k) by (apply Z.pow_pos_nonneg; lia). lia.
Qed.

Lemma bpow_le a b : a <= b -> (bpow a <= bpow b)%R.
Proof.
  intros H. replace b with (a + (b - a)) by lia. rewrite bpow_add.
  pose proof (bpow_pos a). pose proof (bpow_ge_1 (b - a) ltac:(lia)). nra.
Qed.

Lemma bpow_lt a b : a < b -> (bpow a < bpow b)%R.
Proof.
  intros H. replace b with ((b - 1) + 1) by lia. rewrite bpow_succ.
  pose proof (bpow_le a (b - 1) ltac:(lia)). pose proof (bpow_pos (b - 1)). lra.
Qed.

Lemma bpow_lt_inv a b : (bpow a < bpow b)%R -> a < b.
Proof.
  intros H. destruct (Z_lt_le_dec a b) as [|Hle]; [assumption|].
  pose proof (bpow_le b a Hle). lra.
Qed.

Lemma bpow_le_inv a b : (bpow a <= bpow b)%R -> a <= b.
Proof.
  intros H. destruct (Z_le_gt_dec a b) as [|Hgt]; [assumption|].
  pose proof (bpow_lt b a ltac:(lia)). lra.
Qed.

(** ** Locations: where an exact value lies between two integers *)

Lemma located_bounds m l x : located m l x -> (IZR m <= x < IZR m + 1)%R.
Proof. destruct l as [|[]]; cbn; lra. Qed.

Lemma IZR_xO p : IZR (Zpos p~0) = (2 * IZR (Zpos p))%R.
Proof. change (Zpos p~0) with (2 * Zpos p). now rewrite mult_IZR. Qed.

Lemma IZR_xI p : IZR (Zpos p~1) = (2 * IZR (Zpos p) + 1)%R.
Proof. change (Zpos p~1) with (2 * Zpos p + 1). now rewrite plus_IZR, mult_IZR. Qed.

Lemma shr_1_located mrs x :
  0 <= shr_m mrs ->
  located (shr_m mrs) (loc_of_shr_record mrs) x ->
  0 <= shr_m (shr_1 mrs) /\
  located (shr_m (shr_1 mrs)) (loc_of_shr_record (shr_1 mrs)) (x / 2).
Proof.
  destruct mrs as [m r s]. cbn [shr_m]. intros Hm.
  destruct m as [|[p|p|]|p]; try lia;
    destruct r, s; cbn [shr_1 shr_m orb loc_of_shr_record located];
    rewrite ?(IZR_xO p), ?(IZR_xI p); intros H; (split; [lia|]); lra.
Qed.

Lemma iter_shr_1_located p :
  forall mrs x,
    0 <= shr_m mrs ->
    located (shr_m mrs) (loc_of_shr_record mrs) x ->
    0 <= shr_m (iter_pos shr_1 p mrs) /\
    located (shr_m (iter_pos shr_1 p mrs)) (loc_of_shr_record (iter_pos shr_1 p mrs))
            (x * bpow (- Zpos p)).
Proof.
  induction p as [p IH | p IH |]; intros mrs x Hm Hx; cbn [iter_pos].
  - destruct (shr_1_located mrs x Hm Hx) as [H1 L1].
    destruct (IH _ _ H1 L1) as [H2 L2].
    destruct (IH _ _ H2 L2) as [H3 L3].
    split; [assumption|].
    replace (x * bpow (- Zpos p~1))%R
      with (x / 2 * bpow (- Zpos p) * bpow (- Zpos p))%R; [assumption|].
    replace (- Zpos p~1) with ((- Zpos p + - Zpos p) - 1) by lia.
    rewrite bpow_pred, bpow_add. lra.
  - destruct (IH _ _ Hm Hx) as [H2 L2].
    destruct (IH _ _ H2 L2) as [H3 L3].
    split; [assumption|].
    replace (x * bpow (- Zpos p~0))%R with (x * bpow (- Zpos p) * bpow (- Zpos p))%R;
      [assumption|].
    replace (- Zpos p~0) with (- Zpos p + - Zpos p) by lia.
    rewrite bpow_add. lra.
  - destruct (shr_1_located mrs x Hm Hx) as [H1 L1]. split; [assumption|].
    change (- Zpos 1) with (0 - 1). rewrite bpow_pred, bpow_0.
    replace (x * (1 / 2))%R with (x / 2)%R by lra. assumption.
Qed.

Lemma shr_fexp_located m e l x :
  0 <= m -> located m l (x * bpow (- e)) ->
  53 <= Zdigits2 m -> -1074 <= Zdigits2 m + e - 53 ->
  snd (shr_fexp prec emax m e l) = Zdigits2 m + e - 53 /\
  2 ^ 52 <= shr_m (fst (shr_fexp prec emax m e l)) < 2 ^ 53 /\
  located (shr_m (fst (shr_fexp prec emax m e l)))
          (loc_of_shr_record (fst (shr_fexp prec emax m e l)))
          (x * bpow (- snd (shr_fexp prec emax m e l))).
Proof.
  intros Hm Hx Hd He. set (d := Zdigits2 m) in *.
  assert (Hm0 : 0 < m) by (destruct m; cbn in *; lia).
  destruct (Zdigits2_bounds m Hm0) as [Hlo Hhi]. fold d in Hlo, Hhi.
  pose proof (located_bounds _ _ _ Hx) as [HxL HxU].
  assert (HL : (bpow (d - 1) <= x * bpow (- e))%R).
  { rewrite (bpow_IZR (d - 1)) by lia. apply IZR_le in Hlo. lra. }
  assert (HU : (x * bpow (- e) < bpow d)%R).
  { rewrite (bpow_IZR d) by lia.
    assert (Hhi' : m + 1 <= 2 ^ d) by lia.
    apply IZR_le in Hhi'. rewrite plus_IZR in Hhi'. lra. }
  unfold shr_fexp, shr. rewrite fexp_normal by (fold d; lia). fold d.
  destruct (d + e - 53 - e) as [|n|n] eqn:En; cbn [fst snd].
  - rewrite shr_record_of_loc_m, loc_of_shr_record_of_loc.
    assert (d = 53) by lia.
    split; [lia|]. split; [|assumption].
    replace 52 with (d - 1) by lia. replace 53 with d by lia. lia.
  - destruct (iter_shr_1_located n (shr_record_of_loc m l) (x * bpow (- e))) as [H1 L1].
    { now rewrite shr_record_of_loc_m. }
    { now rewrite shr_record_of_loc_m, loc_of_shr_record_of_loc. }
    set (m1 := shr_m (iter_pos shr_1 n (shr_record_of_loc m l))) in *.
    assert (Hx1 : (x * bpow (- (e + Zpos n)) = x * bpow (- e) * bpow (- Zpos n))%R).
    { replace (- (e + Zpos n)) with (- e + - Zpos n) by lia. rewrite bpow_add. lra. }
    rewrite Hx1.
    split; [lia|]. split; [|assumption].
    pose proof (located_bounds _ _ _ L1) as [L1L L1U].
    pose proof (bpow_pos (- Zpos n)) as Hp.
    assert (B52 : (bpow 52 <= x * bpow (- e) * bpow (- Zpos n))%R).
    { replace 52 with ((d - 1) + - Zpos n) by lia. rewrite bpow_add. nra. }
    assert (B53 : (x * bpow (- e) * bpow (- Zpos n) < bpow 53)%R).
    { replace 53 with (d + - Zpos n) by lia. rewrite bpow_add. nra. }
    rewrite (bpow_IZR 52) in B52 by lia. rewrite (bpow_IZR 53) in B53 by lia.
    split.
    + assert (IZR (2 ^ 52) < IZR (m1 + 1))%R by (rewrite plus_IZR; lra).
      apply lt_IZR in H. lia.
    + apply lt_IZR. lra.
  - lia.
Qed.

Lemma round_nearest_even_located m l x :
  located m l x ->
  m <= round_nearest_even m l <= m + 1 /\
  (- / 2 <= IZR (round_nearest_even m l) - x <= / 2)%R.
Proof.
  unfold round_nearest_even.
  destruct l as [|[]]; cbn [located]; intros H;
    try destruct (Z.even m); rewrite ?plus_IZR; split; try lia; lra.
Qed.

Lemma binary_round_aux_located sx m e l x :
  0 <= m -> located m l (x * bpow (- e)) ->
  53 <= Zdigits2 m -> -1074 <= Zdigits2 m + e - 53 -> Zdigits2 m + e <= 1023 ->
  exists m' e',
    binary_round_aux prec emax sx m e l = S754_finite sx m' e' /\
    Zpos (digits2_pos m') = 53 /\
    (- (bpow (-53) * x) <= value m' e' - x <= bpow (-53) * x)%R.
Proof.
  intros Hm Hx Hd He Ho. unfold binary_round_aux.
  destruct (shr_fexp_located m e l x Hm Hx Hd He) as (E1 & Hm1 & L1).
  destruct (shr_fexp prec emax m e l) as [mrs1 e1]. cbn [fst snd] in E1, Hm1, L1.
  set (m1 := shr_m mrs1) in *. set (l1 := loc_of_shr_record mrs1) in *.
  destruct (round_nearest_even_located m1 l1 _ L1) as [Hm2 Hr].
  set (m2 := round_nearest_even m1 l1) in *.
  pose proof (located_bounds _ _ _ L1) as [L1L L1U].
  assert (Hx1 : (bpow 52 <= x * bpow (- e1))%R).
  { rewrite (bpow_IZR 52) by lia. destruct Hm1 as [Hm1 _]. apply IZR_le in Hm1. lra. }
  assert (Hxe : (x = x * bpow (- e1) * bpow e1)%R).
  { rewrite Rmult_assoc, <- bpow_add. replace (- e1 + e1) with 0 by lia.
    rewrite bpow_0. lra. }
  pose proof (bpow_pos e1) as Hpe.
  assert (H53 : bpow (-53) = (/ 2 * / bpow 52)%R).
  { replace (-53) with (Z.opp 52 - 1) by lia. rewrite bpow_pred, bpow_opp. lra. }
  pose proof (bpow_pos 52) as Hp52.
  assert (Herr : (- (bpow (-53) * x) <= IZR m2 * bpow e1 - x <= bpow (-53) * x)%R).
  { rewrite H53.
    assert (Hq : (/ 2 * bpow e1 <= / 2 * / bpow 52 * x)%R).
    { rewrite Hxe at 1.
      replace (/ 2 * / bpow 52 * (x * bpow (- e1) * bpow e1))%R
        with (/ 2 * bpow e1 * (x * bpow (- e1) * / bpow 52))%R by lra.
      assert (1 <= x * bpow (- e1) * / bpow 52)%R.
      { apply (Rmult_le_reg_r (bpow 52)); [assumption|].
        rewrite Rmult_assoc, Rinv_l by lra. lra. }
      nra. }
    assert (Hd' : (IZR m2 * bpow e1 - x = (IZR m2 - x * bpow (- e1)) * bpow e1)%R).
    { rewrite Hxe at 1. lra. }
    rewrite Hd'. nra. }
  change (2 ^ 52) with 4503599627370496 in Hm1.
  change (2 ^ 53) with 9007199254740992 in Hm1.
  destruct (Z.eq_dec m2 9007199254740992) as [E2|N2].
  - (* the mantissa was rounded up to the next binade *)
    rewrite E2 in *.
    unfold shr_fexp, shr. cbn [Zdigits2 digits2_pos Pos.succ].
    rewrite fexp_normal by lia.
    replace (54 + e1 - 53 - e1) with 1 by lia.
    cbn [shr_record_of_loc iter_pos shr_1 shr_m].
    replace (e1 + 1 <=? emax - prec) with true
      by (symmetry; apply Z.leb_le; unfold emax, prec; lia).
    exists 4503599627370496%positive, (e1 + 1).
    split; [reflexivity|]. split; [reflexivity|].
    unfold value. rewrite bpow_succ.
    replace (IZR 4503599627370496 * (2 * bpow e1))%R
      with (IZR 9007199254740992 * bpow e1)%R by lra.
    exact Herr.
  - assert (Hd2 : Zdigits2 m2 = 53).
    { apply Zdigits2_eq; [|lia].
      change (2 ^ (53 - 1)) with 4503599627370496.
      change (2 ^ 53) with 9007199254740992. lia. }
    unfold shr_fexp, shr. rewrite Hd2, fexp_normal by lia.
    replace (53 + e1 - 53 - e1) with 0 by lia.
    cbn [shr_record_of_loc shr_m].
    destruct m2 as [|p|p] eqn:Em2; [lia | | lia].
    replace (e1 <=? emax - prec) with true
      by (symmetry; apply Z.leb_le; unfold emax, prec; lia).
    exists p, e1. split; [reflexivity|]. split; [exact Hd2|]. exact Herr.
Qed.

(** ** Values of normal floats *)

Lemma mantissa_53 m :
  Zpos (digits2_pos m) = 53 -> (bpow 52 <= IZR (Zpos m) < bpow 53)%R.
Proof.
  intros Hd. pose proof (digits2_pos_bounds m) as [Hlo Hhi]. rewrite Hd in Hlo, Hhi.
  rewrite (bpow_IZR 52), (bpow_IZR 53) by lia.
  split; [apply IZR_le | apply IZR_lt]; assumption.
Qed.

Lemma value_bounds m e :
  Zpos (digits2_pos m) = 53 -> (bpow (52 + e) <= value m e < bpow (53 + e))%R.
Proof.
  intros Hd. pose proof (mantissa_53 m Hd). pose proof (bpow_pos e).
  unfold value. rewrite !bpow_add. nra.
Qed.

Lemma value_pos m e : (0 < value m e)%R.
Proof.
  unfold value. pose proof (bpow_pos e).
  assert (0 < IZR (Zpos m))%R by (apply IZR_lt; lia). nra.
Qed.

(** The size [digits + exponent] of a located value, from bounds on it. *)
Lemma mag_bounds m e l x lo hi :
  0 < m -> located m l (x * bpow (- e)) ->
  (bpow lo <= x <= bpow hi)%R ->
  lo < Zdigits2 m + e <= hi + 1.
Proof.
  intros Hm Hx [Hlo Hhi].
  destruct (Zdigits2_bounds m Hm) as [Dlo Dhi]. set (d := Zdigits2 m) in *.
  assert (Hd : 0 < d) by (unfold d; destruct m; cbn; lia).
  pose proof (located_bounds _ _ _ Hx) as [HxL HxU].
  assert (Dhi' : m + 1 <= 2 ^ d) by lia.
  apply IZR_le in Dlo, Dhi'. rewrite plus_IZR in Dhi'.
  rewrite <- (bpow_IZR (d - 1)) in Dlo by lia. rewrite <- (bpow_IZR d) in Dhi' by lia.
  pose proof (bpow_pos e) as Hpe.
  assert (Hxe : (x = x * bpow (- e) * bpow e)%R).
  { rewrite Rmult_assoc, <- bpow_add. replace (- e + e) with 0 by lia.
    rewrite bpow_0. lra. }
  assert (H1 : (bpow (d - 1 + e) <= x)%R) by (rewrite bpow_add; nra).
  assert (H2 : (x < bpow (d + e))%R) by (rewrite bpow_add; nra).
  split.
  - apply bpow_lt_inv. lra.
  - assert (d - 1 + e <= hi) by (apply bpow_le_inv; lra). lia.
Qed.

(** ** Multiplication, division and conversion, with their error *)

Lemma SFmul_normal x y vx vy :
  is_normal x vx -> is_normal y vy ->
  (bpow (-64) <= vx * vy <= bpow 64)%R ->
  exists v, is_normal (SFmul prec emax x y) v /\ approx v (vx * vy).
Proof.
  intros (mx & ex & -> & Dx & ->) (my & ey & -> & Dy & ->) Hr.
  cbn [SFmul xorb].
  pose proof (digits2_pos_bounds mx) as [Xlo _]. rewrite Dx in Xlo.
  pose proof (digits2_pos_bounds my) as [Ylo _]. rewrite Dy in Ylo.
  change (2 ^ (53 - 1)) with 4503599627370496 in Xlo, Ylo.
  assert (Hloc : located (Zpos (mx * my)) loc_Exact
                         (value mx ex * value my ey * bpow (- (ex + ey)))).
  { cbn [located]. unfold value. rewrite Pos2Z.inj_mul, mult_IZR.
    replace (- (ex + ey)) with (- ex + - ey) by lia.
    rewrite bpow_add, !bpow_opp.
    pose proof (bpow_pos ex). pose proof (bpow_pos ey). field. lra. }
  assert (Hd : 53 <= Zdigits2 (Zpos (mx * my))).
  { assert (105 <= Zdigits2 (Zpos (mx * my))); [|lia].
    apply Zdigits2_ge; [|lia].
    change (2 ^ (105 - 1)) with (4503599627370496 * 4503599627370496).
    rewrite Pos2Z.inj_mul. nia. }
  assert (Hm0 : 0 < Zpos (mx * my)) by lia.
  destruct (mag_bounds _ _ _ _ _ _ Hm0 Hloc Hr) as [M1 M2].
  destruct (binary_round_aux_located false _ _ _ _ (Z.lt_le_incl _ _ Hm0) Hloc Hd)
    as (m' & e' & E & D' & Herr); [lia | lia |].
  exists (value m' e'). split; [|exact Herr].
  exists m', e'. repeat split; assumption.
Qed.

Lemma new_location_eq nb k :
  new_location nb k =
  if Z.eqb k 0 then loc_Exact
  else if Z.even nb then loc_Inexact (Z.compare (2 * k) nb)
       else loc_Inexact match Z.compare (2 * k + 1) nb with Gt => Gt | _ => Lt end.
Proof.
  unfold new_location, new_location_even, new_location_odd.
  destruct (Z.even nb); reflexivity.
Qed.

Lemma new_location_located nb k q :
  0 < nb -> 0 <= k < nb ->
  located q (new_location nb k) (IZR q + IZR k / IZR nb).
Proof.
  intros Hnb Hk.
  assert (Hn : (0 < IZR nb)%R) by (apply IZR_lt; lia).
  assert (Hk0 : (0 <= IZR k)%R) by (apply IZR_le; lia).
  assert (Hfrac : forall a b : R, (0 < b -> a / b * b = a)%R)
    by (intros; field; lra).
  rewrite new_location_eq.
  destruct (Z.eq_dec k 0) as [->|Hne].
  - change (0 =? 0) with true. cbn [located]. unfold Rdiv. lra.
  - rewrite (proj2 (Z.eqb_neq k 0) Hne).
    assert (Hkpos : (0 < IZR k)%R) by (apply IZR_lt; lia).
    assert (Hpos : (0 < IZR k / IZR nb)%R) by (apply Rdiv_lt_0_compat; assumption).
    assert (Hlt1 : (IZR k / IZR nb < 1)%R).
    { apply (Rmult_lt_reg_r (IZR nb)); [assumption|]. rewrite Hfrac by assumption.
      rewrite Rmult_1_l. apply IZR_lt. lia. }
    assert (Hhalf : forall c, c = Z.compare (2 * k) nb ->
              match c with
              | Lt => (IZR k / IZR nb < / 2)%R
              | Eq => (IZR k / IZR nb = / 2)%R
              | Gt => (/ 2 < IZR k / IZR nb)%R
              end).
    { intros c ->. destruct (Z.compare_spec (2 * k) nb) as [E|E|E].
      - apply (Rmult_eq_reg_r (IZR nb)); [|lra]. rewrite Hfrac by assumption.
        rewrite <- E, mult_IZR. lra.
      - apply (Rmult_lt_reg_r (IZR nb)); [assumption|]. rewrite Hfrac by assumption.
        apply IZR_lt in E. rewrite mult_IZR in E. lra.
      - apply (Rmult_lt_reg_r (IZR nb)); [assumption|]. rewrite Hfrac by assumption.
        apply IZR_lt in E. rewrite mult_IZR in E. lra. }
    destruct (Z.even nb) eqn:Ev.
    + specialize (Hhalf _ eq_refl).
      destruct (2 * k ?= nb); cbn [located]; lra.
    + assert (Hodd : 2 * k <> nb).
      { intros <-. rewrite Z.even_mul in Ev. discriminate. }
      specialize (Hhalf _ eq_refl).
      destruct (Z.compare_spec (2 * k + 1) nb) as [E|E|E];
        destruct (Z.compare_spec (2 * k) nb) as [E'|E'|E']; try lia;
        cbn [located]; lra.
Qed.

Lemma SFdiv_normal x y vx vy :
  is_normal x vx -> is_normal y vy ->
  (bpow (-64) <= vx / vy <= bpow 64)%R ->
  exists v, is_normal (SFdiv prec emax x y) v /\ approx v (vx / vy).
Proof.
  intros (mx & ex & -> & Dx & ->) (my & ey & -> & Dy & ->) Hr.
  cbn [SFdiv xorb]. unfold SFdiv_core_binary. cbn [Zdigits2]. rewrite Dx, Dy.
  pose proof (value_bounds mx ex Dx) as [VxL VxU].
  pose proof (value_bounds my ey Dy) as [VyL VyU].
  pose proof (value_pos mx ex) as Vx0. pose proof (value_pos my ey) as Vy0.
  pose proof (bpow_pos (52 + ey)) as P1.
  (* the exponents are far from the subnormal range *)
  assert (Hex : -64 <= ex - ey).
  { assert (H : (bpow (-64) < bpow (ex - ey + 1))%R).
    { apply Rle_lt_trans with (1 := proj1 Hr).
      assert (Hs : bpow (53 + ex) = (bpow (ex - ey + 1) * bpow (52 + ey))%R).
      { rewrite <- bpow_add. f_equal. lia. }
      pose proof (bpow_pos (ex - ey + 1)) as P2.
      assert (Hqv : (value mx ex / value my ey * value my ey = value mx ex)%R)
        by (field; lra).
      set (Q := (value mx ex / value my ey)%R) in *.
      destruct (Rlt_le_dec Q (bpow (ex - ey + 1))) as [|Hge]; [assumption|exfalso].
      assert (bpow (ex - ey + 1) * bpow (52 + ey) <= Q * value my ey)%R.
      { apply Rmult_le_compat; lra. }
      lra. }
    apply bpow_lt_inv in H. lia. }
  rewrite fexp_normal by lia.
  replace (Z.min (53 + ex - (53 + ey) - 53) (ex - ey)) with (ex - ey - 53) by lia.
  replace (ex - ey - (ex - ey - 53)) with 53 by lia.
  cbn match.
  rewrite Z.shiftl_mul_pow2 by lia.
  pose proof (Z_div_mod (Zpos mx * 2 ^ 53) (Zpos my) ltac:(lia)) as Hdiv.
  destruct (Z.div_eucl (Zpos mx * 2 ^ 53) (Zpos my)) as [q r].
  destruct Hdiv as [Hq Hrm].
  pose proof (digits2_pos_bounds mx) as [Xlo Xhi]. rewrite Dx in Xlo, Xhi.
  pose proof (digits2_pos_bounds my) as [Ylo Yhi]. rewrite Dy in Ylo, Yhi.
  change (2 ^ (53 - 1)) with 4503599627370496 in Xlo, Ylo.
  change (2 ^ 53) with 9007199254740992 in *.
  assert (Hq52 : 4503599627370496 <= q) by nia.
  assert (Hloc : located q (new_location (Zpos my) r)
                         (value mx ex / value my ey * bpow (- (ex - ey - 53)))).
  { replace (value mx ex / value my ey * bpow (- (ex - ey - 53)))%R
      with (IZR q + IZR r / IZR (Zpos my))%R.
    - apply new_location_located; lia.
    - unfold value.
      replace (- (ex - ey - 53)) with (- ex + ey + 53) by lia.
      rewrite !bpow_add, bpow_opp, (bpow_IZR 53) by lia.
      change (2 ^ 53) with 9007199254740992.
      apply IZR_eq in Hq. rewrite plus_IZR, !mult_IZR in Hq.
      pose proof (bpow_pos ex). pose proof (bpow_pos ey).
      assert (0 < IZR (Zpos my))%R by (apply IZR_lt; lia).
      replace (IZR (Zpos mx) * bpow ex / (IZR (Zpos my) * bpow ey) *
               (/ bpow ex * bpow ey * IZR 9007199254740992))%R
        with ((IZR (Zpos mx) * IZR 9007199254740992) / IZR (Zpos my))%R
        by (field; lra).
      rewrite Hq. field. lra. }
  assert (Hd : 53 <= Zdigits2 q).
  { apply Zdigits2_ge; [|lia]. change (2 ^ (53 - 1)) with 4503599627370496. lia. }
  assert (Hq0 : 0 < q) by lia.
  destruct (mag_bounds _ _ _ _ _ _ Hq0 Hloc Hr) as [M1 M2].
  destruct (binary_round_aux_located false _ _ _ _ (Z.lt_le_incl _ _ Hq0) Hloc Hd)
    as (m' & e' & E & D' & Herr); [lia | lia |].
  exists (value m' e'). split; [|exact Herr].
  exists m', e'. repeat split; assumption.
Qed.

Lemma binary_normalize_normal n :
  0 < n < 2 ^ 53 ->
  exists v, is_normal (binary_normalize prec emax n 0 false) v /\ approx v (IZR n).
Proof.
  intros [Hn0 Hn]. destruct n as [|p|p]; try lia.
  cbn [binary_normalize]. unfold binary_round, shl_align.
  pose proof (Zdigits2_le (Zpos p) 53 ltac:(lia) ltac:(lia)) as Hd.
  cbn [Zdigits2] in Hd.
  set (d := Zpos (digits2_pos p)) in *.
  assert (Hd1 : 0 < d) by (unfold d; lia).
  rewrite fexp_normal by lia.
  destruct (d + 0 - 53 - 0) as [|k|k] eqn:Ek.
  - (* already 53 digits *)
    assert (Hloc : located (Zpos p) loc_Exact (IZR (Zpos p) * bpow (- 0))).
    { cbn [located]. change (- 0) with 0. rewrite bpow_0. lra. }
    destruct (binary_round_aux_located false _ _ _ _ (Pos2Z.is_nonneg p) Hloc)
      as (m' & e' & E & D' & Herr); cbn [Zdigits2]; fold d; try lia.
    exists (value m' e'). split; [|exact Herr]. exists m', e'. repeat split; assumption.
  - lia.
  - assert (Hloc : located (Zpos (Pos.iter xO p k)) loc_Exact
                           (IZR (Zpos p) * bpow (- (d + 0 - 53)))).
    { cbn [located]. rewrite Zpos_iter_xO, mult_IZR, <- bpow_IZR by lia.
      do 2 f_equal. lia. }
    destruct (binary_round_aux_located false _ _ _ _ (Pos2Z.is_nonneg _) Hloc)
      as (m' & e' & E & D' & Herr);
      cbn [Zdigits2]; rewrite ?digits2_pos_iter_xO; fold d; try lia.
    exists (value m' e'). split; [|exact Herr]. exists m', e'. repeat split; assumption.
Qed.

Lemma div_normal f g vf vg :
  fnormal f vf -> fnormal g vg ->
  (bpow (-64) <= vf / vg <= bpow 64)%R ->
  exists v, fnormal (f / g) v /\ approx v (vf / vg).
Proof. unfold fnormal. rewrite div_spec. apply SFdiv_normal. Qed.

Lemma mul_normal f g vf vg :
  fnormal f vf -> fnormal g vg ->
  (bpow (-64) <= vf * vg <= bpow 64)%R ->
  exists v, fnormal (f * g) v /\ approx v (vf * vg).
Proof. unfold fnormal. rewrite mul_spec. apply SFmul_normal. Qed.

Lemma fnormal_1000 : fnormal 1000 1000.
Proof.
  exists 8796093022208000%positive, (-43). repeat split.
  unfold value. change (-43) with (- (43)). rewrite bpow_neg_IZR by lia.
  change (2 ^ 43) with 8796093022208. lra.
Qed.

(** ** Error propagation *)

Lemma ulp_half_val : ulp_half = (/ 9007199254740992)%R.
Proof.
  unfold ulp_half. change (-53) with (- (53)). rewrite bpow_neg_IZR by lia.
  change (2 ^ 53) with 9007199254740992. reflexivity.
Qed.

Lemma wide_range x : wide x -> (bpow (-64) <= x <= bpow 64)%R.
Proof.
  unfold wide. intros [Hlo Hhi].
  change (-64) with (- (64)). rewrite bpow_neg_IZR, (bpow_IZR 64) by lia.
  change (2 ^ 64) with 18446744073709551616.
  assert (/ 18446744073709551616 <= / 1099511627776)%R
    by (apply Rinv_le_contravar; lra).
  lra.
Qed.

(** A value known as [c * r] with the ratio [r] between [L] and [U]:
    one more rounding widens the bounds by [1 - u] and [1 + u]. *)
Lemma approx_ratio v c r L U :
  approx v (c * r) -> (0 < c)%R -> (0 < L <= r)%R -> (r <= U)%R ->
  exists r', v = (c * r')%R /\
             (L * (1 - ulp_half) <= r' <= U * (1 + ulp_half))%R.
Proof.
  unfold approx. fold ulp_half. rewrite ulp_half_val.
  intros [H1 H2] Hc [HL Hr] HU.
  exists (v / c)%R. split; [field; lra|].
  assert (Hlo : (c * (L * (1 - / 9007199254740992)) <= v)%R) by nra.
  assert (Hhi : (v <= c * (U * (1 + / 9007199254740992)))%R) by nra.
  split.
  - apply (Rmult_le_reg_l c); [assumption|].
    replace (c * (v / c))%R with v by (field; lra). assumption.
  - apply (Rmult_le_reg_l c); [assumption|].
    replace (c * (v / c))%R with v by (field; lra). assumption.
Qed.

Lemma Rinv_bounds x lo hi :
  (0 < lo <= x)%R -> (x <= hi)%R -> (/ hi <= / x <= / lo)%R.
Proof.
  intros [H0 Hlo] Hhi. split; apply Rinv_le_contravar; lra.
Qed.

Lemma ratio_product r1 r2 L1 U1 L2 U2 :
  (0 < L1 <= r1)%R -> (r1 <= U1)%R -> (0 < L2 <= r2)%R -> (r2 <= U2)%R ->
  (0 < L1 * L2 <= r1 * r2)%R /\ (r1 * r2 <= U1 * U2)%R.
Proof. intros [? ?] ? [? ?] ?. repeat split; nra. Qed.

End Binary64.

Import Binary64.

(** * The arithmetic of the handler *)

(** ** Signs and overflow *)

Lemma to_double_finite n : ffinite (to_double n).
Proof.
  unfold ffinite, to_double. rewrite of_uint63_spec.
  apply binary_normalize_finite. apply Uint63.to_Z_bounded.
Qed.

Lemma div_HOUR_finite x : ffinite x -> ffinite (x / HOUR).
Proof.
  intros Hx. apply (div_finite x HOUR 7916483719987200 (-41) Hx); [reflexivity|].
  cbn. lia.
Qed.

Lemma measured_period_finite millis g : ffinite (measured_period millis g).
Proof. apply div_1000_finite, to_double_finite. Qed.

Lemma pulse_power_signed p :
  ffinite p -> (p <=? SECOND_ISR_PERIOD)%float = false -> fsigned (pulse_power p).
Proof.
  unfold ffinite, fsigned, pulse_power. intros Hp Hle.
  rewrite leb_spec in Hle. rewrite mul_spec, div_spec.
  change (Prim2SF PULSES_KWH_RES) with (S754_finite false 4503599627370496 (-52)).
  change (Prim2SF HOUR) with (S754_finite false 7916483719987200 (-41)).
  destruct (Prim2SF p) as [s|s| |s m e]; cbn in Hp; try tauto; subst s.
  - vm_compute in Hle. discriminate.
  - unfold SF64mul, SF64div.
    pose proof (SFdiv_signed false 4503599627370496 (-52) false m e) as H.
    cbn [xorb] in H.
    apply SFmul_signed; [assumption | reflexivity | left; discriminate].
Qed.

Lemma filter_power_finite w : fsigned w -> ffinite (filter_power w).
Proof.
  unfold fsigned, ffinite, filter_power. intros Hw.
  destruct (MAX_POWER <? w)%float eqn:E; [reflexivity|].
  rewrite ltb_spec in E.
  destruct (Prim2SF w) as [s|s| |s m e]; cbn in Hw; try tauto; subst s.
  vm_compute in E. discriminate.
Qed.

Lemma pulse_energy_signed p w : ffinite p -> ffinite w -> fsigned (pulse_energy p w).
Proof.
  intros Hp Hw. unfold fsigned, pulse_energy. rewrite mul_spec.
  apply SFmul_signed.
  - apply ffinite_fsigned, div_HOUR_finite, Hp.
  - apply div_1000_finite, Hw.
  - right. apply div_HOUR_finite, Hp.
Qed.

Lemma pulse_energy_zero p : ffinite p -> pulse_energy p 0 = 0%float.
Proof.
  intros Hp. apply Prim2SF_inj. unfold pulse_energy. rewrite mul_spec.
  change (Prim2SF (0 / 1000)) with (S754_zero false).
  change (Prim2SF 0) with (S754_zero false).
  apply SFmul_zero_r. apply div_HOUR_finite, Hp.
Qed.

(** ** The energy of one pulse *)

Lemma to_double_normal n :
  0 < n < 2 ^ 53 -> exists v, fnormal (to_double n) v /\ approx v (IZR n).
Proof.
  intros Hn. unfold fnormal, to_double. rewrite of_uint63_spec, Uint63.of_Z_spec.
  rewrite Z.mod_small.
  - now apply binary_normalize_normal.
  - assert (wB = 2 ^ 63) by reflexivity. 
    assert (2 ^ 53 < 2 ^ 63) by (apply Z.pow_lt_mono_r; lia). lia.
Qed.

Lemma fnormal_HOUR : fnormal HOUR 3600.
Proof.
  exists 7916483719987200%positive, (-41). repeat split.
  unfold value. change (-41) with (- (41)). rewrite bpow_neg_IZR by lia.
  change (2 ^ 41) with 2199023255552. lra.
Qed.

Lemma fnormal_PULSES_KWH_RES : fnormal PULSES_KWH_RES 1.
Proof.
  exists 4503599627370496%positive, (-52). repeat split.
  unfold value. change (-52) with (- (52)). rewrite bpow_neg_IZR by lia.
  change (2 ^ 52) with 4503599627370496. lra.
Qed.

(** Five roundings away from 0.001, in units of [2 ^ -62]. *)
Lemma five_roundings_low :
  (4611686018427385 * 1000 <
   (1 - / 9007199254740992) * (1 - / 9007199254740992) * (1 - / 9007199254740992)
   * (1 - / 9007199254740992) * (1 - / 9007199254740992) * 4611686018427387904)%R.
Proof. lra. Qed.

Lemma five_roundings_high :
  ((1 + / 9007199254740992) * (1 + / 9007199254740992) * (1 + / 9007199254740992)
   * (1 + / 9007199254740992) * (1 + / 9007199254740992) * 4611686018427387904
   < 4611686018427391 * 1000)%R.
Proof. lra. Qed.

(** The energy of a pulse, whatever the interval: five roundings of
    [(i / 3600) * (((1 / i) * 3600) / 1000)], whose exact value is 1/1000. *)
Lemma energy_step_ratio i vi :
  fnormal i vi -> (/ 2048 <= vi <= 8388608)%R ->
  exists ve r,
    fnormal (pulse_energy i (pulse_power i)) ve /\
    ve = (/ 1000 * r)%R /\
    ((1 - ulp_half) * ((1 - ulp_half) * (1 - ulp_half) * (1 - ulp_half))
       * (1 - ulp_half) <= r)%R /\
    (r <= (1 + ulp_half) * ((1 + ulp_half) * (1 + ulp_half) * (1 + ulp_half))
          * (1 + ulp_half))%R.
Proof.
  intros Hi [Vlo Vhi].
  pose proof ulp_half_val as Hu.
  set (u := ulp_half) in *.
  assert (Ha : (/ 2 <= 1 - u <= 1)%R) by (rewrite Hu; lra).
  assert (Hb : (1 <= 1 + u <= 2)%R) by (rewrite Hu; lra).
  set (w := (/ vi)%R).
  assert (Hv0 : (0 < vi)%R) by lra.
  assert (Hw : (vi * w = 1)%R) by (unfold w; field; lra).
  destruct (Rinv_bounds vi (/ 2048) 8388608 ltac:(lra) Vhi) as [Wlo Whi].
  fold w in Wlo, Whi. rewrite Rinv_inv in Whi.
  assert (Hw0 : (0 < w)%R) by lra.
  unfold pulse_energy, pulse_power.
  (* 1 / i *)
  destruct (div_normal _ _ _ _ fnormal_PULSES_KWH_RES Hi) as (v1 & N1 & A1).
  { apply wide_range. unfold wide. replace (1 / vi)%R with w by (unfold w; lra). lra. }
  replace (1 / vi)%R with (w * 1)%R in A1 by (unfold w; lra).
  destruct (approx_ratio _ _ _ 1 1 A1 Hw0 ltac:(lra) ltac:(lra)) as (r1 & -> & R1).
  fold u in R1. rewrite !Rmult_1_l in R1.
  (* ... * 3600 *)
  destruct (mul_normal _ _ _ _ N1 fnormal_HOUR) as (v2 & N2 & A2).
  { apply wide_range. unfold wide. split; nra. }
  replace (w * r1 * 3600)%R with (3600 * w * r1)%R in A2 by lra.
  destruct (approx_ratio _ _ _ (1 - u) (1 + u) A2 ltac:(lra) ltac:(lra) ltac:(lra))
    as (r2 & -> & R2).
  fold u in R2.
  assert (R2' : (/ 4 <= r2 <= 4)%R) by (split; nra).
  (* ... / 1000 *)
  destruct (div_normal _ _ _ _ N2 fnormal_1000) as (v3 & N3 & A3).
  { apply wide_range. unfold wide. split; nra. }
  replace (3600 * w * r2 / 1000)%R with (3600 * w / 1000 * r2)%R in A3 by lra.
  destruct (approx_ratio _ _ _ ((1 - u) * (1 - u)) ((1 + u) * (1 + u)) A3
              ltac:(lra) ltac:(split; [nra | lra]) ltac:(lra))
    as (r3 & -> & R3).
  fold u in R3.
  assert (R3' : (/ 8 <= r3 <= 8)%R) by (split; nra).
  (* i / 3600 *)
  destruct (div_normal _ _ _ _ Hi fnormal_HOUR) as (va & Na & Aa).
  { apply wide_range. unfold wide. lra. }
  replace (vi / 3600)%R with (vi / 3600 * 1)%R in Aa by lra.
  destruct (approx_ratio _ _ _ 1 1 Aa ltac:(lra) ltac:(lra) ltac:(lra))
    as (ra & -> & Ra).
  fold u in Ra. rewrite !Rmult_1_l in Ra.
  (* the product *)
  destruct (mul_normal _ _ _ _ Na N3) as (ve & Ne & Ae).
  { apply wide_range. unfold wide.
    replace (vi / 3600 * ra * (3600 * w / 1000 * r3))%R
      with (vi * w * (/ 1000 * (ra * r3)))%R by lra.
    rewrite Hw. split; nra. }
  replace (vi / 3600 * ra * (3600 * w / 1000 * r3))%R
    with (vi * w * (/ 1000 * (ra * r3)))%R in Ae by lra.
  rewrite Hw, Rmult_1_l in Ae.
  destruct (ratio_product ra r3 (1 - u) (1 + u)
              ((1 - u) * (1 - u) * (1 - u)) ((1 + u) * (1 + u) * (1 + u)))
    as [P1 P2]; try lra.
  { split; [nra | lra]. }
  destruct (approx_ratio _ _ _ _ _ Ae ltac:(lra) P1 P2) as (re & -> & Re).
  fold u in Re.
  exists (/ 1000 * re)%R, re. repeat split; try assumption; lra.
Qed.

Lemma measured_interval_normal n :
  0 < n < 2 ^ 32 ->
  exists vi, fnormal (to_double n / 1000) vi /\ (/ 2048 <= vi <= 8388608)%R.
Proof.
  intros Hn. change (2 ^ 32) with 4294967296 in Hn.
  destruct (to_double_normal n) as (vt & Nt & At).
  { change (2 ^ 53) with 9007199254740992. lia. }
  assert (H1 : (1 <= IZR n)%R) by (apply IZR_le; lia).
  assert (H2 : (IZR n <= 4294967295)%R) by (apply IZR_le; lia).
  unfold approx in At. fold ulp_half in At. rewrite ulp_half_val in At.
  destruct (div_normal _ _ _ _ Nt fnormal_1000) as (vi & Ni & Ai).
  { apply wide_range. unfold wide. lra. }
  exists vi. split; [assumption|].
  unfold approx in Ai. fold ulp_half in Ai. rewrite ulp_half_val in Ai.
  lra.
Qed.

(** The energy of a pulse lies within two units in the last place of the
    double nearest to 0.001, for every interval of the 32-bit clock. *)
Lemma energy_step_bounds n :
  0 < n < 2 ^ 32 ->
  let i := (to_double n / 1000)%float in
  (energy_lo <=? pulse_energy i (pulse_power i))%float = true /\
  (pulse_energy i (pulse_power i) <=? energy_hi)%float = true.
Proof.
  intros Hn i.
  destruct (measured_interval_normal n Hn) as (vi & Ni & Vi). fold i in Ni.
  destruct (energy_step_ratio i vi Ni Vi) as (ve & r & Ne & -> & Rlo & Rhi).
  rewrite ulp_half_val in Rlo, Rhi.
  pose proof five_roundings_low as Flo. pose proof five_roundings_high as Fhi.
  destruct Ne as (M & E & HM & DM & HV).
  destruct (value_bounds M E DM) as [B1 B2]. rewrite <- HV in B1, B2.
  (* the exponent *)
  assert (HE : E = -62).
  { assert (L10 : (bpow (-10) < / 1000 * r)%R).
    { change (-10) with (- (10)). rewrite bpow_neg_IZR by lia.
      change (2 ^ 10) with 1024. lra. }
    assert (L9 : (/ 1000 * r < bpow (-9))%R).
    { change (-9) with (- (9)). rewrite bpow_neg_IZR by lia.
      change (2 ^ 9) with 512. lra. }
    assert (52 + E < -9) by (apply bpow_lt_inv; lra).
    assert (-10 < 53 + E) by (apply bpow_lt_inv; lra).
    lia. }
  subst E.
  (* the mantissa *)
  unfold value in HV. change (-62) with (- (62)) in HV.
  rewrite bpow_neg_IZR in HV by lia.
  change (2 ^ 62) with 4611686018427387904 in HV.
  assert (HM1 : (4611686018427385 < IZR (Zpos M))%R) by lra.
  assert (HM2 : (IZR (Zpos M) < 4611686018427391)%R) by lra.
  apply lt_IZR in HM1, HM2.
  rewrite !leb_spec, HM.
  change (Prim2SF energy_lo) with (S754_finite false 4611686018427386 (-62)).
  change (Prim2SF energy_hi) with (S754_finite false 4611686018427390 (-62)).
  clear - HM1 HM2.
  split; apply SFleb_same_exponent; lia.
Qed.

(** * Properties of the specification *)

(** ** Pulse timing *)

(** C1: the handler never writes [ulStartTime].  After [setup] at 0 ms and
    accepted edges at 1000 ms and 2000 ms the second edge is timed from
    [setup] (2 s, 1800 W), not from the edge before it (1 s, 3600 W); and an
    edge 50 ms after an accepted one is accepted too, being 1050 ms after
    [setup]. *)
Theorem isr_times_second_edge_from_setup :
  let g1 := isr 1000 (mem (setup 0 boot)) in
  let g2 := isr 2000 g1 in
  let g2' := isr 1050 g1 in
  uiIsrCount g1 = 1 /\ ulStartTime g1 = 0 /\
  uiIsrCount g2 = 2 /\ ulStartTime g2 = 0 /\
  dPulsePeriod g2 = 2%float /\ dPower g2 = 1800%float /\
  uiIsrCount g2' = 2 /\ dPulsePeriod g2' = 1.05%float.
Proof. cbv zeta. repeat split; reflexivity. Qed.

(** C4: an edge whose measured interval is at most [SECOND_ISR_PERIOD]
    leaves the sample count, the power sum and the energy total as they
    were. *)
Theorem isr_bounce_discarded millis g :
  (measured_period millis g <=? SECOND_ISR_PERIOD)%float = true ->
  uiIsrCount (isr millis g) = uiIsrCount g /\
  dTotalW (isr millis g) = dTotalW g /\
  dKWh (isr millis g) = dKWh g.
Proof. intros H. rewrite (isr_rejected _ _ H). repeat split. Qed.

Lemma isr_bounce_discarded_witness :
  (measured_period 50 (mem one_sample_window) <=? SECOND_ISR_PERIOD)%float = true /\
  uiIsrCount (isr 50 (mem one_sample_window)) = 1.
Proof.
  split; [reflexivity|].
  rewrite (proj1 (isr_bounce_discarded 50 (mem one_sample_window) eq_refl)).
  reflexivity.
Defined.

(** ** Accumulation *)

(** C5: for an accepted edge the power is [(PULSES_KWH_RES / i) * HOUR],
    replaced by zero when it exceeds [MAX_POWER]; in that case the sample
    count still goes up by one while the power sum and the energy total
    receive [+0.0], which leaves every value but [-0.0] as it was. *)
Theorem isr_filters_implausible_power millis g :
  let i := measured_period millis g in
  (i <=? SECOND_ISR_PERIOD)%float = false ->
  dPower (isr millis g) =
    (if (MAX_POWER <? (PULSES_KWH_RES / i) * HOUR)%float then 0%float
     else ((PULSES_KWH_RES / i) * HOUR)%float) /\
  ((MAX_POWER <? (PULSES_KWH_RES / i) * HOUR)%float = true ->
   uiIsrCount (isr millis g) = wrap32 (uiIsrCount g + 1) /\
   (0 <= uiIsrCount g < UINT_MAX -> uiIsrCount (isr millis g) = uiIsrCount g + 1) /\
   dTotalW (isr millis g) = (dTotalW g + 0)%float /\
   dKWh (isr millis g) = (dKWh g + 0)%float /\
   (dTotalW g <> neg_zero -> dTotalW (isr millis g) = dTotalW g) /\
   (dKWh g <> neg_zero -> dKWh (isr millis g) = dKWh g)).
Proof.
  intros i H. rewrite (isr_accepted _ _ H). cbn [dPower uiIsrCount dTotalW dKWh].
  fold i. split; [reflexivity|]. intros Hc.
  assert (Hp : filter_power (pulse_power i) = 0%float)
    by (unfold filter_power, pulse_power; now rewrite Hc).
  rewrite Hp, (pulse_energy_zero i (measured_period_finite millis g)).
  repeat split.
  - intros Hr. unfold wrap32, UINT_MAX in *. apply Z.mod_small. lia.
  - apply add_zero_r.
  - apply add_zero_r.
Qed.

Lemma isr_filters_implausible_power_witness :
  (measured_period 200 (mem one_sample_window) <=? SECOND_ISR_PERIOD)%float = false /\
  dPower (isr 200 (mem one_sample_window)) = 0%float /\
  uiIsrCount (isr 200 (mem one_sample_window)) = 2 /\
  dTotalW (isr 200 (mem one_sample_window)) = 3600%float.
Proof.
  split; [reflexivity|].
  pose proof (isr_filters_implausible_power 200 (mem one_sample_window) eq_refl) as H.
  cbv zeta in H. destruct H as (Hp & Hc).
  split; [rewrite Hp; reflexivity|].
  destruct (Hc eq_refl) as (Hn & _ & Ht & _).
  rewrite Hn, Ht. split; reflexivity.
Defined.

(** C6: an accepted edge adds one to the sample count (in 32-bit unsigned
    arithmetic), the filtered power to the power sum and
    [(interval / 3600) * (power / 1000)] to the energy total; the timestamps
    of the accumulator stay as they were. *)
Theorem isr_accumulates millis g :
  (measured_period millis g <=? SECOND_ISR_PERIOD)%float = false ->
  let i := measured_period millis g in
  let p := filter_power (pulse_power i) in
  uiIsrCount (isr millis g) = wrap32 (uiIsrCount g + 1) /\
  (0 <= uiIsrCount g < UINT_MAX -> uiIsrCount (isr millis g) = uiIsrCount g + 1) /\
  dTotalW (isr millis g) = (dTotalW g + p)%float /\
  dKWh (isr millis g) = (dKWh g + (i / HOUR) * (p / 1000))%float /\
  ulStartTime (isr millis g) = ulStartTime g /\
  ulPreviousMillis (isr millis g) = ulPreviousMillis g /\
  ulCurrentMillis (isr millis g) = ulCurrentMillis g.
Proof.
  intros H i p. rewrite (isr_accepted _ _ H). cbn.
  repeat split.
  intros Hc. unfold wrap32, UINT_MAX in *. apply Z.mod_small. lia.
Qed.

Lemma isr_accumulates_witness :
  (measured_period 2000 (mem one_sample_window) <=? SECOND_ISR_PERIOD)%float = false /\
  uiIsrCount (isr 2000 (mem one_sample_window)) = 2 /\
  dTotalW (isr 2000 (mem one_sample_window)) = 5400%float.
Proof.
  split; [reflexivity|].
  pose proof (isr_accumulates 2000 (mem one_sample_window) eq_refl) as H.
  cbv zeta in H. destruct H as (Hc & _ & Ht & _).
  rewrite Hc, Ht. split; reflexivity.
Defined.

(** C10, as stated, fails in binary64: 513 ms after [setup] the edge is
    accepted and its power kept, yet the energy total grows by
    0.0009999999999999998 and not by [PULSES_KWH_RES / 1000]; 518 ms gives
    0.0010000000000000002, so the step depends on the interval. *)
Lemma energy_step_not_exact :
  let g := mem (setup 0 boot) in
  let i := measured_period 513 g in
  let j := measured_period 518 g in
  (i <=? SECOND_ISR_PERIOD)%float = false /\
  (MAX_POWER <? pulse_power i)%float = false /\
  dKWh (isr 513 g) = 0.0009999999999999998%float /\
  (dKWh g + PULSES_KWH_RES / 1000)%float = 0.001%float /\
  (dKWh (isr 513 g) =? dKWh g + PULSES_KWH_RES / 1000)%float = false /\
  (j <=? SECOND_ISR_PERIOD)%float = false /\
  (MAX_POWER <? pulse_power j)%float = false /\
  (dKWh (isr 518 g) =? dKWh (isr 513 g))%float = false.
Proof. cbv zeta. repeat split. Qed.

(** C10, amended: an accepted edge whose power is kept adds to the energy
    total [(i / 3600) * (((K / i) * 3600) / 1000)] as binary64 computes it,
    a step that lies between [energy_lo] and [energy_hi], that is within two
    units in the last place of the double nearest to 0.001, whatever the
    interval. *)
Theorem isr_energy_step_near_one_Wh millis g :
  let i := measured_period millis g in
  (i <=? SECOND_ISR_PERIOD)%float = false ->
  (MAX_POWER <? pulse_power i)%float = false ->
  exists e,
    dKWh (isr millis g) = (dKWh g + e)%float /\
    e = ((i / HOUR) * (((PULSES_KWH_RES / i) * HOUR) / 1000))%float /\
    (energy_lo <=? e)%float = true /\ (e <=? energy_hi)%float = true.
Proof.
  intros i Hacc Hkeep.
  exists (pulse_energy i (pulse_power i)).
  rewrite (isr_accepted _ _ Hacc). cbn [dKWh]. fold i.
  assert (Hp : filter_power (pulse_power i) = pulse_power i)
    by (unfold filter_power; now rewrite Hkeep).
  rewrite Hp. split; [reflexivity|]. split; [reflexivity|].
  assert (Hn : 0 <= wrap32 (millis - ulStartTime g) < 2 ^ 32)
    by (apply Z.mod_pos_bound; reflexivity).
  destruct (Z.eq_dec (wrap32 (millis - ulStartTime g)) 0) as [E0 | N0].
  - exfalso. unfold i, measured_period in Hacc. rewrite E0 in Hacc.
    vm_compute in Hacc. discriminate.
  - apply (energy_step_bounds (wrap32 (millis - ulStartTime g))). lia.
Qed.

Lemma isr_energy_step_near_one_Wh_witness :
  exists e,
    dKWh (isr 1000 (mem (setup 0 boot))) = (0 + e)%float /\
    (energy_lo <=? e)%float = true /\ (e <=? energy_hi)%float = true.
Proof.
  destruct (isr_energy_step_near_one_Wh 1000 (mem (setup 0 boot)))
    as (e & He & _ & Hlo & Hhi); [reflexivity | reflexivity |].
  exists e. repeat split; assumption.
Defined.

(** ** The command callback *)

(** C7: the byte [c] zeroes the energy total and nothing else of the
    accumulator; a byte other than [c] and [r] changes nothing and the
    routine returns normally. *)
Theorem callback_clear_and_unknown (rest : list byte) (length : Z) (g : globals) :
  (exists g',
      callback ("c"%byte :: rest) length g = Some (Continue g') /\
      dKWh g' = 0%float /\
      uiIsrCount g' = uiIsrCount g /\
      dTotalW g' = dTotalW g /\
      ulStartTime g' = ulStartTime g) /\
  (forall c : byte,
      c <> "c"%byte -> c <> "r"%byte ->
      callback (c :: rest) length g = Some (Continue g)).
Proof.
  split.
  - exists (set_dKWh 0%float g). repeat split.
  - intros c Hc Hr. unfold callback.
    destruct (Byte.eqb c "c") eqn:Ec.
    + apply Byte.byte_dec_bl in Ec. contradiction.
    + destruct (Byte.eqb c "r") eqn:Er.
      * apply Byte.byte_dec_bl in Er. contradiction.
      * reflexivity.
Qed.

Lemma callback_clear_and_unknown_witness :
  callback ["x"%byte] 1 (mem one_sample_window) =
  Some (Continue (mem one_sample_window)).
Proof.
  apply (proj2 (callback_clear_and_unknown [] 1 (mem one_sample_window)));
    discriminate.
Defined.

(** ** The reporting block *)

(** C2: the loop divides without looking at the sample count.  A window
    without any edge ([setup] at 0 ms, clock read at 60000 ms) publishes
    [0.0 / 0], which is NaN, as the average power. *)
Theorem loop_report_empty_window :
  uiIsrCount (mem (setup 0 boot)) = 0 /\
  window_elapsed (set_ulCurrentMillis 60000 (mem (setup 0 boot))) = true /\
  sent (loop_report 60000 (setup 0 boot)) = [lwt_on; watts nan; kWh 0%float] /\
  (nan =? 0)%float = false.
Proof. repeat split. Qed.

(** A pass that no interrupt enters: at a window boundary the loop publishes
    the average computed from the sample count and power sum it found, and
    the energy total it found; when the block ends the sample count, the
    power sum and the energy total are all zero. *)
Lemma loop_report_drains millis w :
  window_elapsed (set_ulCurrentMillis millis (mem w)) = true ->
  let w' := loop_report millis w in
  sent w' =
    sent w ++ [watts (dTotalW (mem w) / to_double (uiIsrCount (mem w)))%float;
               kWh (dKWh (mem w))] /\
  uiIsrCount (mem w') = 0 /\
  dTotalW (mem w') = 0%float /\
  dKWh (mem w') = 0%float.
Proof.
  intros H. unfold loop_report. cbn [mem on_mem]. rewrite H.
  rewrite run_report_block. cbn. repeat split.
Qed.

Lemma loop_report_drains_witness :
  sent (loop_report 60000 (on_mem (isr 1000) (setup 0 boot))) =
    [lwt_on; watts 3600%float; kWh (dKWh (isr 1000 (mem (setup 0 boot))))] /\
  uiIsrCount (mem (loop_report 60000 (on_mem (isr 1000) (setup 0 boot)))) = 0.
Proof.
  pose proof (loop_report_drains 60000 (on_mem (isr 1000) (setup 0 boot)) eq_refl) as H.
  cbv zeta in H. destruct H as (Hs & Hc & _).
  split; [rewrite Hs; reflexivity | exact Hc].
Defined.

(** ** Interrupts during the reporting block *)

(** What the scenario [edge_before_resets] does: it publishes the figures of
    the first edge alone and ends with every total at zero, so the second
    edge appears in no report. *)
Lemma edge_before_resets_run :
  let w := run_preempted edge_before_resets one_sample_window in
  sent w = [lwt_on; watts 3600%float; kWh (dKWh (mem one_sample_window))] /\
  uiIsrCount (mem w) = 0 /\ dTotalW (mem w) = 0%float /\ dKWh (mem w) = 0%float.
Proof. cbv zeta. repeat split. Qed.


(** When edges are serviced only ahead of the division, the block is the
    block executed as one unit after those edges. *)
Lemma edges_before_average_linearizable (a b : list Z) (w : world) :
  map snd (edges_before_average a b) = report_block /\
  run_preempted (edges_before_average a b) w = atomic_at (a ++ b) [] w /\
  linearizable (edges_before_average a b) w.
Proof.
  assert (Hrun : run_preempted (edges_before_average a b) w = atomic_at (a ++ b) [] w).
  { unfold atomic_at, edges_before_average, run_preempted.
    rewrite !on_mem_service_nil.
    rewrite service_exec_SetPrevious, on_mem_service_app.
    reflexivity. }
  split; [reflexivity|]. split; [exact Hrun|].
  exists (a ++ b), []. split; [|now rewrite Hrun].
  unfold edges_of. cbn. now rewrite !app_nil_r.
Qed.

(** ** The reporting block under every interleaving *)

(** What the handler computes depends on the state through [ulStartTime] only. *)
Lemma same_start g g' :
  ulStartTime g' = ulStartTime g ->
  counted g' = counted g /\ sample_power g' = sample_power g /\
  count_after g' = count_after g /\ power_sum g' = power_sum g /\
  energy_sum g' = energy_sum g /\ last_power g' = last_power g.
Proof.
  intros H.
  unfold count_after, power_sum, energy_sum, last_power, sample_energy, sample_power,
    counted, measured_period.
  rewrite H. repeat split.
Qed.


Lemma counted_app g a b : counted g (a ++ b) = counted g a ++ counted g b.
Proof. apply filter_app. Qed.




Lemma last_power_app g a b p :
  last_power g (a ++ b) p = last_power g b (last_power g a p).
Proof. unfold last_power. now rewrite counted_app, fold_left_app. Qed.















(** ** Invariants *)

Lemma isr_accumulator_ok millis g : accumulator_ok g -> accumulator_ok (isr millis g).
Proof.
  intros (Hc & Ht & Hk).
  destruct (isr_cases millis g) as [[_ ->] | [Hacc ->]].
  - repeat split; assumption.
  - pose proof (measured_period_finite millis g) as Hi.
    pose proof (filter_power_finite _ (pulse_power_signed _ Hi Hacc)) as Hp.
    unfold accumulator_ok. cbn [uiIsrCount dTotalW dKWh]. repeat split.
    + apply Z.mod_pos_bound. reflexivity.
    + apply add_nonneg; [assumption|]. now apply ffinite_fsigned.
    + apply add_nonneg; [assumption|]. now apply pulse_energy_signed.
Qed.

Lemma loop_report_accumulator_ok millis w :
  accumulator_ok (mem w) -> accumulator_ok (mem (loop_report millis w)).
Proof.
  intros H. destruct (loop_report_cases millis w) as [[_ ->] | [_ ->]].
  - rewrite run_report_block. repeat split. cbn. lia.
  - exact H.
Qed.

Lemma exec_accumulator_ok s w :
  accumulator_ok (mem w) -> accumulator_ok (mem (exec s w)).
Proof.
  destruct w as [g out]. cbn [mem]. intros (Hc & Ht & Hk).
  destruct s; cbn; repeat split; solve [assumption | reflexivity | apply Z.le_refl].
Qed.

Lemma service_accumulator_ok edges :
  forall g, accumulator_ok g -> accumulator_ok (service edges g).
Proof.
  induction edges as [|t edges IH]; intros g H; [exact H|].
  cbn. fold (service edges (isr t g)). now apply IH, isr_accumulator_ok.
Qed.

Lemma run_preempted_accumulator_ok p :
  forall w, accumulator_ok (mem w) -> accumulator_ok (mem (run_preempted p w)).
Proof.
  induction p as [|[edges s] p IH]; intros w H; [exact H|].
  cbn [run_preempted]. apply IH, exec_accumulator_ok.
  destruct w as [g out]. cbn [mem on_mem]. now apply service_accumulator_ok.
Qed.

(** C9: a non-negative sample count, a power sum [>= 0] and an energy total
    [>= 0] hold initially and are kept by the interrupt routine (whether it
    accepts the edge or not), by the main loop with its reporting block, also
    when edges are serviced between its statements, and by the command
    callback. *)
Theorem accumulator_ok_invariant :
  accumulator_ok initial /\
  (forall millis g, accumulator_ok g -> accumulator_ok (isr millis g)) /\
  (forall millis w,
      accumulator_ok (mem w) -> accumulator_ok (mem (loop_report millis w))) /\
  (forall millis client_state millis_setup w,
      accumulator_ok (mem w) ->
      accumulator_ok (mem (loop millis client_state millis_setup w))) /\
  (forall p w,
      accumulator_ok (mem w) -> accumulator_ok (mem (run_preempted p w))) /\
  (forall payload length g g',
      accumulator_ok g ->
      callback payload length g = Some (Continue g') -> accumulator_ok g').
Proof.
  split; [repeat split; cbn; lia|].
  split; [exact isr_accumulator_ok|].
  split; [exact loop_report_accumulator_ok|].
  split; [|split; [intros p w; apply run_preempted_accumulator_ok|]].
  - intros millis cs ms w H. unfold loop.
    pose proof (loop_report_accumulator_ok millis w H) as H'.
    destruct (cs <? 0); [|exact H'].
    destruct (setup_accumulator ms (loop_report millis w)) as (E1 & E2 & E3).
    unfold accumulator_ok. now rewrite E1, E2, E3.
  - intros payload length g g' H.
    destruct payload as [|c rest]; [discriminate|]. cbn [callback].
    destruct (Byte.eqb c "c").
    + intros [= <-]. destruct H as (Hc & Ht & _). repeat split; assumption.
    + destruct (Byte.eqb c "r"); [discriminate|]. now intros [= <-].
Qed.

Lemma accumulator_ok_invariant_witness :
  accumulator_ok (isr 2000 (isr 1000 initial)) /\
  accumulator_ok (mem (loop 60000 0 0 (mkWorld (isr 1000 initial) []))) /\
  accumulator_ok (mem (run_preempted edge_before_resets one_sample_window)).
Proof.
  destruct accumulator_ok_invariant as (H0 & Hisr & _ & Hloop & Hpre & _).
  split; [|split].
  - apply Hisr, Hisr, H0.
  - apply Hloop. apply Hisr, H0.
  - apply Hpre. unfold one_sample_window, setup, publish, on_mem, boot.
    cbn [mem sent]. apply Hisr. repeat split; cbn; lia.
Defined.

(** * Further properties of the routines *)

(** ** Comparing normal floats by their values *)

Lemma SFcompare_value_gt m1 e1 m2 e2 :
  Zpos (digits2_pos m1) = 53 -> Zpos (digits2_pos m2) = 53 ->
  (value m2 e2 < value m1 e1)%R ->
  SFcompare (S754_finite false m1 e1) (S754_finite false m2 e2) = Some Gt.
Proof.
  intros D1 D2 H. unfold SFcompare.
  destruct (value_bounds m1 e1 D1) as [L1 U1].
  destruct (value_bounds m2 e2 D2) as [L2 U2].
  destruct (Z.compare_spec e1 e2) as [E|E|E].
  - subst e2. unfold value in H. pose proof (bpow_pos e1) as Hp.
    assert (Hm : (IZR (Zpos m2) < IZR (Zpos m1))%R) by nra.
    apply lt_IZR in Hm.
    change (Pos.compare_cont Eq m1 m2) with (Z.compare (Zpos m1) (Zpos m2)).
    f_equal. apply Z.compare_gt_iff. lia.
  - exfalso. pose proof (bpow_le (53 + e1) (52 + e2) ltac:(lia)). lra.
  - reflexivity.
Qed.

Lemma SFcompare_value_lt m1 e1 m2 e2 :
  Zpos (digits2_pos m1) = 53 -> Zpos (digits2_pos m2) = 53 ->
  (value m1 e1 < value m2 e2)%R ->
  SFcompare (S754_finite false m1 e1) (S754_finite false m2 e2) = Some Lt.
Proof.
  intros D1 D2 H. unfold SFcompare.
  destruct (value_bounds m1 e1 D1) as [L1 U1].
  destruct (value_bounds m2 e2 D2) as [L2 U2].
  destruct (Z.compare_spec e1 e2) as [E|E|E].
  - subst e2. unfold value in H. pose proof (bpow_pos e1) as Hp.
    assert (Hm : (IZR (Zpos m1) < IZR (Zpos m2))%R) by nra.
    apply lt_IZR in Hm.
    change (Pos.compare_cont Eq m1 m2) with (Z.compare (Zpos m1) (Zpos m2)).
    f_equal. apply Z.compare_lt_iff. lia.
  - reflexivity.
  - exfalso. pose proof (bpow_le (53 + e2) (52 + e1) ltac:(lia)). lra.
Qed.

(** ** The measured interval and the power, as real numbers *)

Lemma measured_interval_value n :
  0 < n < 2 ^ 32 ->
  exists vi,
    fnormal (to_double n / 1000) vi /\
    (IZR n / 1000 * ((1 - ulp_half) * (1 - ulp_half)) <= vi
     <= IZR n / 1000 * ((1 + ulp_half) * (1 + ulp_half)))%R.
Proof.
  intros Hn. change (2 ^ 32) with 4294967296 in Hn.
  destruct (to_double_normal n) as (vt & Nt & At).
  { change (2 ^ 53) with 9007199254740992. lia. }
  assert (H1 : (1 <= IZR n)%R) by (apply IZR_le; lia).
  assert (H2 : (IZR n <= 4294967295)%R) by (apply IZR_le; lia).
  pose proof ulp_half_val as Hu.
  destruct (div_normal _ _ _ _ Nt fnormal_1000) as (vi & Ni & Ai).
  { apply wide_range. unfold wide. unfold approx in At. fold ulp_half in At.
    rewrite Hu in At. lra. }
  exists vi. split; [assumption|].
  replace (IZR n) with (IZR n * 1)%R in At by lra.
  destruct (approx_ratio _ _ _ 1 1 At ltac:(lra) ltac:(lra) ltac:(lra))
    as (r1 & -> & R1).
  rewrite !Rmult_1_l in R1.
  replace (IZR n * r1 / 1000)%R with (IZR n / 1000 * r1)%R in Ai by lra.
  destruct (approx_ratio _ _ _ (1 - ulp_half) (1 + ulp_half) Ai) as (r2 & -> & R2);
    try (rewrite Hu; lra); try lra.
  assert (0 < IZR n / 1000)%R by lra.
  split; apply Rmult_le_compat_l; lra.
Qed.

(** [f] holds at every integer from 0 below [k]. *)
Lemma forallb_below (f : Z -> bool) (k : nat) :
  forallb f (map Z.of_nat (seq 0 k)) = true ->
  forall n, 0 <= n < Z.of_nat k -> f n = true.
Proof.
  intros H n Hn. rewrite forallb_forall in H. apply H.
  apply in_map_iff. exists (Z.to_nat n). split; [lia|].
  apply in_seq. lia.
Qed.

Lemma rejected_upto_90 n :
  0 <= n <= 90 -> (to_double n / 1000 <=? SECOND_ISR_PERIOD)%float = true.
Proof.
  intros Hn.
  apply (forallb_below (fun n => (to_double n / 1000 <=? SECOND_ISR_PERIOD)%float) 91);
    [vm_compute; reflexivity | lia].
Qed.

Lemma accepted_from_91 n :
  91 <= n < 2 ^ 32 -> (to_double n / 1000 <=? SECOND_ISR_PERIOD)%float = false.
Proof.
  intros Hn.
  destruct (measured_interval_value n ltac:(lia)) as (vi & (m & e & Hm & Dm & ->) & [Vlo _]).
  rewrite ulp_half_val in Vlo.
  assert (H91 : (91 <= IZR n)%R) by (apply IZR_le; lia).
  rewrite leb_spec, Hm.
  change (Prim2SF SECOND_ISR_PERIOD) with (S754_finite false 6485183463413514 (-56)).
  unfold SFleb. rewrite SFcompare_value_gt; [reflexivity | assumption | reflexivity |].
  unfold value at 1. change (-56) with (- (56)). rewrite bpow_neg_IZR by lia.
  change (2 ^ 56) with 72057594037927936. lra.
Qed.

Lemma pulse_power_value i vi :
  fnormal i vi -> (/ 2048 <= vi <= 8388608)%R ->
  exists vp r,
    fnormal (pulse_power i) vp /\ (vp * vi = 3600 * r)%R /\
    ((1 - ulp_half) * (1 - ulp_half) <= r <= (1 + ulp_half) * (1 + ulp_half))%R.
Proof.
  intros Hi [Vlo Vhi].
  pose proof ulp_half_val as Hu.
  set (u := ulp_half) in *.
  assert (Ha : (/ 2 <= 1 - u <= 1)%R) by (rewrite Hu; lra).
  assert (Hb : (1 <= 1 + u <= 2)%R) by (rewrite Hu; lra).
  set (w := (/ vi)%R).
  assert (Hv0 : (0 < vi)%R) by lra.
  assert (Hw : (vi * w = 1)%R) by (unfold w; field; lra).
  destruct (Rinv_bounds vi (/ 2048) 8388608 ltac:(lra) Vhi) as [Wlo Whi].
  fold w in Wlo, Whi. rewrite Rinv_inv in Whi.
  assert (Hw0 : (0 < w)%R) by lra.
  unfold pulse_power.
  destruct (div_normal _ _ _ _ fnormal_PULSES_KWH_RES Hi) as (v1 & N1 & A1).
  { apply wide_range. unfold wide. replace (1 / vi)%R with w by (unfold w; lra). lra. }
  replace (1 / vi)%R with (w * 1)%R in A1 by (unfold w; lra).
  destruct (approx_ratio _ _ _ 1 1 A1 Hw0 ltac:(lra) ltac:(lra)) as (r1 & -> & R1).
  fold u in R1. rewrite !Rmult_1_l in R1.
  destruct (mul_normal _ _ _ _ N1 fnormal_HOUR) as (v2 & N2 & A2).
  { apply wide_range. unfold wide. split; nra. }
  replace (w * r1 * 3600)%R with (3600 * w * r1)%R in A2 by lra.
  destruct (approx_ratio _ _ _ (1 - u) (1 + u) A2 ltac:(lra) ltac:(lra) ltac:(lra))
    as (r2 & -> & R2).
  fold u in R2.
  exists (3600 * w * r2)%R, r2. split; [assumption|]. split; [|assumption].
  replace (3600 * w * r2 * vi)%R with (3600 * r2 * (vi * w))%R by lra.
  rewrite Hw. lra.
Qed.

Lemma kept_from_512 n :
  512 <= n < 2 ^ 32 ->
  let p := pulse_power (to_double n / 1000) in
  (MAX_POWER <? p)%float = false /\ (p <=? MAX_POWER)%float = true /\
  (0 <=? p)%float = true.
Proof.
  intros Hn p.
  destruct (measured_interval_value n ltac:(lia)) as (vi & Ni & [Vlo Vhi]).
  assert (H512 : (512 <= IZR n)%R) by (apply IZR_le; lia).
  assert (Hmax : (IZR n <= 4294967295)%R).
  { apply IZR_le. change (2 ^ 32) with 4294967296 in Hn. lia. }
  pose proof ulp_half_val as Hu. rewrite Hu in Vlo, Vhi.
  destruct (pulse_power_value _ vi Ni ltac:(lra)) as (vp & r & Np & Hpv & [Rlo Rhi]).
  fold p in Np. rewrite Hu in Rlo, Rhi.
  destruct Np as (m & e & Hm & Dm & ->).
  pose proof (value_pos m e) as Hp0.
  assert (Hlt : (value m e < 7040)%R).
  { destruct (Rlt_le_dec (value m e) 7040) as [|Hge]; [assumption|exfalso].
    assert (7040 * (512 / 1000 * ((1 - / 9007199254740992) * (1 - / 9007199254740992)))
            <= value m e * vi)%R.
    { apply Rmult_le_compat; lra. }
    lra. }
  assert (Hv : value 7740561859543040 (-40) = 7040%R).
  { unfold value. change (-40) with (- (40)). rewrite bpow_neg_IZR by lia.
    change (2 ^ 40) with 1099511627776. lra. }
  rewrite ltb_spec, !leb_spec, Hm.
  change (Prim2SF MAX_POWER) with (S754_finite false 7740561859543040 (-40)).
  change (Prim2SF 0) with (S754_zero false).
  unfold SFltb, SFleb.
  rewrite (SFcompare_value_gt 7740561859543040 (-40) m e), (SFcompare_value_lt m e);
    try assumption; try reflexivity; try (rewrite Hv; assumption).
  repeat split.
Qed.

Lemma filtered_from_91_upto_511 n :
  91 <= n <= 511 -> (MAX_POWER <? pulse_power (to_double n / 1000))%float = true.
Proof.
  intros Hn.
  pose proof (forallb_below
                (fun n => (n <=? 90)
                          || (MAX_POWER <? pulse_power (to_double n / 1000))%float)
                512 ltac:(vm_compute; reflexivity) n ltac:(lia)) as H.
  cbv beta in H.
  destruct (Z.leb_spec n 90); [lia | exact H].
Qed.

(** * Further properties *)
(** ** The two thresholds of the handler, in milliseconds *)

Lemma elapsed_ms_range millis g : 0 <= elapsed_ms millis g < 2 ^ 32.
Proof. apply Z.mod_pos_bound. reflexivity. Qed.

Lemma measured_period_le_threshold millis g :
  (measured_period millis g <=? SECOND_ISR_PERIOD)%float = (elapsed_ms millis g <=? 90).
Proof.
  pose proof (elapsed_ms_range millis g) as Hr.
  change (measured_period millis g) with (to_double (elapsed_ms millis g) / 1000)%float.
  destruct (Z.leb_spec (elapsed_ms millis g) 90).
  - apply rejected_upto_90. lia.
  - apply accepted_from_91. lia.
Qed.

Lemma filter_power_by_interval millis g :
  90 < elapsed_ms millis g ->
  filter_power (pulse_power (measured_period millis g)) =
  if elapsed_ms millis g <=? 511 then 0%float
  else pulse_power (measured_period millis g).
Proof.
  intros H. pose proof (elapsed_ms_range millis g) as Hr.
  unfold filter_power.
  change (measured_period millis g) with (to_double (elapsed_ms millis g) / 1000)%float.
  destruct (Z.leb_spec (elapsed_ms millis g) 511).
  - rewrite filtered_from_91_upto_511 by lia. reflexivity.
  - destruct (kept_from_512 (elapsed_ms millis g) ltac:(lia)) as (-> & _). reflexivity.
Qed.

(** The handler with its two float comparisons replaced by what they amount
    to on the elapsed milliseconds. *)
Lemma isr_by_interval millis g :
  isr millis g =
  if elapsed_ms millis g <=? 90 then set_dPulsePeriod 0%float g
  else
    let i := measured_period millis g in
    let p := if elapsed_ms millis g <=? 511 then 0%float else pulse_power i in
    mkGlobals (ulPreviousMillis g) (ulCurrentMillis g) i p (ulStartTime g)
              (dKWh g + pulse_energy i p)%float
              (wrap32 (uiIsrCount g + 1))
              (dTotalW g + p)%float.
Proof.
  pose proof (measured_period_le_threshold millis g) as H.
  destruct (isr_cases millis g) as [[Hc ->] | [Hc ->]]; rewrite Hc in H; rewrite <- H.
  - reflexivity.
  - symmetry in H. apply Z.leb_gt in H. cbv zeta.
    rewrite (filter_power_by_interval millis g H). reflexivity.
Qed.

(** X1: the handler's test [dPulsePeriod <= SECOND_ISR_PERIOD], made on
    doubles, is the test [elapsed <= 90] on the milliseconds elapsed since
    [ulStartTime]: an edge is discarded up to 90 ms and counted from 91 ms
    on, for every value of the 32-bit clock. *)
Theorem isr_debounce_in_milliseconds millis g :
  (measured_period millis g <=? SECOND_ISR_PERIOD)%float = (elapsed_ms millis g <=? 90) /\
  uiIsrCount (isr millis g) =
    (if elapsed_ms millis g <=? 90 then uiIsrCount g else wrap32 (uiIsrCount g + 1)).
Proof.
  split; [apply measured_period_le_threshold|].
  rewrite isr_by_interval. destruct (elapsed_ms millis g <=? 90); reflexivity.
Qed.

(** X2: the filter [dPower > MAX_POWER], made on doubles, is the test
    [elapsed <= 511] on the elapsed milliseconds: a counted edge records the
    power 0 up to 511 ms and [(PULSES_KWH_RES / i) * HOUR] from 512 ms on,
    and the power sum grows by what is recorded. *)
Theorem isr_power_in_milliseconds millis g :
  dPower (isr millis g) =
    (if elapsed_ms millis g <=? 90 then dPower g
     else if elapsed_ms millis g <=? 511 then 0%float
          else pulse_power (measured_period millis g)) /\
  dTotalW (isr millis g) =
    (if elapsed_ms millis g <=? 90 then dTotalW g
     else if elapsed_ms millis g <=? 511 then (dTotalW g + 0)%float
          else (dTotalW g + pulse_power (measured_period millis g))%float).
Proof.
  rewrite isr_by_interval.
  destruct (elapsed_ms millis g <=? 90); [split; reflexivity|].
  cbv zeta. cbn [dPower dTotalW].
  destruct (elapsed_ms millis g <=? 511); split; reflexivity.
Qed.

(** X3: the power recorded for a counted edge is never below zero and
    never above [MAX_POWER]. *)
Theorem isr_power_within_limits millis g :
  90 < elapsed_ms millis g ->
  (0 <=? dPower (isr millis g))%float = true /\
  (dPower (isr millis g) <=? MAX_POWER)%float = true.
Proof.
  intros H. rewrite isr_by_interval.
  rewrite (proj2 (Z.leb_gt _ _) H). cbv zeta. cbn [dPower].
  pose proof (elapsed_ms_range millis g) as Hr.
  destruct (Z.leb_spec (elapsed_ms millis g) 511).
  - split; reflexivity.
  - change (measured_period millis g) with (to_double (elapsed_ms millis g) / 1000)%float.
    destruct (kept_from_512 (elapsed_ms millis g) ltac:(lia)) as (_ & H1 & H2).
    split; assumption.
Qed.

Lemma isr_power_within_limits_witness :
  90 < elapsed_ms 1000 (mem (setup 0 boot)) /\
  (dPower (isr 1000 (mem (setup 0 boot))) <=? MAX_POWER)%float = true.
Proof.
  split; [reflexivity|].
  apply (isr_power_within_limits 1000 (mem (setup 0 boot))). reflexivity.
Defined.

(** X4: from 512 ms on, the power recorded for an edge is a normal double
    whose value is 3 600 000 W divided by the elapsed milliseconds, up to a
    relative error of five times [2 ^ -53]. *)
Theorem isr_power_value millis g :
  511 < elapsed_ms millis g ->
  exists v,
    fnormal (dPower (isr millis g)) v /\
    (3600000 / IZR (elapsed_ms millis g) * (1 - 5 * ulp_half) <= v
     <= 3600000 / IZR (elapsed_ms millis g) * (1 + 5 * ulp_half))%R.
Proof.
  intros H. pose proof (elapsed_ms_range millis g) as Hr.
  rewrite isr_by_interval.
  assert (H90 : 90 < elapsed_ms millis g) by lia.
  rewrite (proj2 (Z.leb_gt _ _) H90). cbv zeta.
  rewrite (proj2 (Z.leb_gt _ _) H). cbn [dPower].
  change (measured_period millis g) with (to_double (elapsed_ms millis g) / 1000)%float.
  set (n := elapsed_ms millis g) in *.
  destruct (measured_interval_value n ltac:(lia)) as (vi & Ni & [Vlo Vhi]).
  assert (H512 : (512 <= IZR n)%R) by (apply IZR_le; lia).
  assert (Hmax : (IZR n <= 4294967295)%R).
  { apply IZR_le. change (2 ^ 32) with 4294967296 in Hr. lia. }
  pose proof ulp_half_val as Hu. rewrite Hu in Vlo, Vhi.
  destruct (pulse_power_value _ vi Ni ltac:(lra)) as (vp & r & Np & Hpv & [Rlo Rhi]).
  rewrite Hu in Rlo, Rhi.
  exists vp. split; [assumption|]. rewrite Hu.
  assert (Hp0 : (0 < vp)%R).
  { destruct Np as (m & e & _ & _ & ->). apply value_pos. }
  set (a := (IZR n / 1000)%R) in *.
  assert (Ha : (0 < a)%R) by (unfold a; lra).
  assert (L1 : (vp * (a * ((1 - / 9007199254740992) * (1 - / 9007199254740992)))
                <= vp * vi)%R) by (apply Rmult_le_compat_l; lra).
  assert (L2 : (vp * vi
                <= vp * (a * ((1 + / 9007199254740992) * (1 + / 9007199254740992))))%R)
    by (apply Rmult_le_compat_l; lra).
  rewrite Hpv in L1, L2.
  replace (3600000 / IZR n)%R with (3600 / a)%R by (unfold a; field; lra).
  set (x := (vp * a)%R).
  replace (vp * (a * ((1 - / 9007199254740992) * (1 - / 9007199254740992))))%R
    with (x * ((1 - / 9007199254740992) * (1 - / 9007199254740992)))%R in L1
    by (unfold x; ring).
  replace (vp * (a * ((1 + / 9007199254740992) * (1 + / 9007199254740992))))%R
    with (x * ((1 + / 9007199254740992) * (1 + / 9007199254740992)))%R in L2
    by (unfold x; ring).
  assert (B1 : (3600 * (1 - 5 * / 9007199254740992) <= x)%R) by lra.
  assert (B2 : (x <= 3600 * (1 + 5 * / 9007199254740992))%R) by lra.
  replace vp with (x / a)%R by (unfold x; field; lra).
  unfold Rdiv. split.
  - replace (3600 * / a * (1 - 5 * / 9007199254740992))%R
      with (3600 * (1 - 5 * / 9007199254740992) * / a)%R by ring.
    apply Rmult_le_compat_r; [left; now apply Rinv_0_lt_compat | assumption].
  - replace (3600 * / a * (1 + 5 * / 9007199254740992))%R
      with (3600 * (1 + 5 * / 9007199254740992) * / a)%R by ring.
    apply Rmult_le_compat_r; [left; now apply Rinv_0_lt_compat | assumption].
Qed.

Lemma isr_power_value_witness :
  exists v,
    fnormal (dPower (isr 1000 (mem (setup 0 boot)))) v /\
    (3600000 / 1000 * (1 - 5 * ulp_half) <= v <= 3600000 / 1000 * (1 + 5 * ulp_half))%R.
Proof.
  apply (isr_power_value 1000 (mem (setup 0 boot))). reflexivity.
Defined.

(** ** Streams of edges *)

Lemma service_ulPreviousMillis edges :
  forall g, ulPreviousMillis (service edges g) = ulPreviousMillis g.
Proof.
  induction edges as [|t edges IH]; intros g; [reflexivity|].
  now rewrite service_cons, IH, isr_ulPreviousMillis.
Qed.

Lemma service_from s edges :
  forall g,
    ulStartTime g = s ->
    0 <= uiIsrCount g < 2 ^ 32 ->
    let accepted := filter (fun t => 90 <? wrap32 (t - s)) edges in
    let power t :=
      filter_power (pulse_power (to_double (wrap32 (t - s)) / 1000)) in
    let energy t := pulse_energy (to_double (wrap32 (t - s)) / 1000) (power t) in
    uiIsrCount (service edges g) =
      wrap32 (uiIsrCount g + Z.of_nat (length accepted)) /\
    dTotalW (service edges g) =
      fold_left (fun a t => (a + power t)%float) accepted (dTotalW g) /\
    dKWh (service edges g) =
      fold_left (fun a t => (a + energy t)%float) accepted (dKWh g).
Proof.
  induction edges as [|t edges IH]; intros g Hs Hc; cbv zeta.
  - cbn. repeat split. rewrite Z.add_0_r. symmetry. now apply Z.mod_small.
  - rewrite service_cons. cbn [filter].
    assert (Hs' : ulStartTime (isr t g) = s) by now rewrite isr_ulStartTime.
    pose proof (measured_period_le_threshold t g) as Hthr.
    unfold elapsed_ms in Hthr. rewrite Hs in Hthr.
    destruct (isr_cases t g) as [[Hle Hg] | [Hle Hg]]; rewrite Hle in Hthr.
    + symmetry in Hthr. apply Z.leb_le in Hthr.
      rewrite (proj2 (Z.ltb_ge _ _) Hthr).
      specialize (IH (isr t g) Hs'). rewrite Hg in IH |- *.
      apply IH. exact Hc.
    + symmetry in Hthr. apply Z.leb_gt in Hthr.
      rewrite (proj2 (Z.ltb_lt _ _) Hthr).
      assert (Hc' : 0 <= uiIsrCount (isr t g) < 2 ^ 32).
      { rewrite Hg. cbn [uiIsrCount]. apply Z.mod_pos_bound. reflexivity. }
      destruct (IH (isr t g) Hs' Hc') as (E1 & E2 & E3).
      rewrite E1, E2, E3. rewrite Hg. cbn [uiIsrCount dTotalW dKWh length fold_left].
      unfold measured_period. rewrite Hs.
      rewrite wrap32_succ_add. repeat split. f_equal. lia.
Qed.

(** X5: servicing a stream of edges counts those more than 90 ms after
    [ulStartTime], wherever they are in the stream, and adds their powers and
    energies to the two totals in arrival order; whether an edge is counted
    does not depend on the edges before it. *)
Theorem service_accumulates_in_arrival_order edges g :
  0 <= uiIsrCount g < 2 ^ 32 ->
  let accepted := filter (fun t => 90 <? elapsed_ms t g) edges in
  let power t := filter_power (pulse_power (measured_period t g)) in
  let energy t := pulse_energy (measured_period t g) (power t) in
  uiIsrCount (service edges g) =
    wrap32 (uiIsrCount g + Z.of_nat (length accepted)) /\
  dTotalW (service edges g) =
    fold_left (fun a t => (a + power t)%float) accepted (dTotalW g) /\
  dKWh (service edges g) =
    fold_left (fun a t => (a + energy t)%float) accepted (dKWh g).
Proof.
  intros Hc. exact (service_from (ulStartTime g) edges g eq_refl Hc).
Qed.

Lemma service_accumulates_in_arrival_order_witness :
  uiIsrCount (service [50; 1000; 1040; 2000] (mem (setup 0 boot))) = 3 /\
  dTotalW (service [50; 1000; 1040; 2000] (mem (setup 0 boot))) =
    (0 + 3600 + pulse_power 1.04 + 1800)%float.
Proof.
  destruct (service_accumulates_in_arrival_order
              [50; 1000; 1040; 2000] (mem (setup 0 boot)))
    as (H1 & H2 & _); [cbn; lia|].
  rewrite H1, H2. split; reflexivity.
Defined.

(** ** The 32-bit clock *)

Lemma wrap32_elapsed s d :
  0 <= d < 2 ^ 32 -> wrap32 (wrap32 (s + d) - s) = d.
Proof.
  intros Hd. unfold wrap32.
  rewrite Zminus_mod_idemp_l.
  replace (s + d - s) with d by lia. now apply Z.mod_small.
Qed.

(** X6: the interval is taken in 32-bit unsigned arithmetic, so an edge
    [d] milliseconds after [ulStartTime] is measured as [d] also when the
    clock has rolled over in between. *)
Theorem isr_interval_across_rollover d millis g :
  0 <= d < 2 ^ 32 ->
  millis = wrap32 (ulStartTime g + d) ->
  measured_period millis g = (to_double d / 1000)%float /\
  uiIsrCount (isr millis g) =
    (if d <=? 90 then uiIsrCount g else wrap32 (uiIsrCount g + 1)).
Proof.
  intros Hd ->.
  assert (He : elapsed_ms (wrap32 (ulStartTime g + d)) g = d)
    by (apply wrap32_elapsed; assumption).
  split.
  - change (measured_period (wrap32 (ulStartTime g + d)) g)
      with (to_double (elapsed_ms (wrap32 (ulStartTime g + d)) g) / 1000)%float.
    now rewrite He.
  - rewrite isr_by_interval, He. destruct (d <=? 90); reflexivity.
Qed.

Lemma isr_interval_across_rollover_witness :
  measured_period 500 (set_ulStartTime 4294966796 initial) = 1%float /\
  uiIsrCount (isr 500 (set_ulStartTime 4294966796 initial)) = 1.
Proof.
  destruct (isr_interval_across_rollover 1000 500 (set_ulStartTime 4294966796 initial))
    as (H1 & H2); [cbn; lia | reflexivity |].
  rewrite H1, H2. split; reflexivity.
Defined.

(** ** The reporting window *)

Lemma window_elapsed_by_interval millis g :
  window_elapsed (set_ulCurrentMillis millis g) =
  (60000 <=? wrap32 (millis - ulPreviousMillis g)).
Proof. reflexivity. Qed.

Lemma loop_report_by_interval millis w :
  loop_report millis w =
  if 60000 <=? wrap32 (millis - ulPreviousMillis (mem w))
  then run report_block (on_mem (set_ulCurrentMillis millis) w)
  else on_mem (set_ulCurrentMillis millis) w.
Proof. reflexivity. Qed.

(** X7: the window test is taken in 32-bit unsigned arithmetic: [d]
    milliseconds after the previous report the loop reports exactly when
    [d >= 60000], also across a rollover of the clock; before that it sends
    nothing and leaves the totals and the start of the window alone. *)
Theorem loop_report_across_rollover d millis w :
  0 <= d < 2 ^ 32 ->
  millis = wrap32 (ulPreviousMillis (mem w) + d) ->
  window_elapsed (set_ulCurrentMillis millis (mem w)) = (60000 <=? d) /\
  (d < 60000 ->
   sent (loop_report millis w) = sent w /\
   uiIsrCount (mem (loop_report millis w)) = uiIsrCount (mem w) /\
   dTotalW (mem (loop_report millis w)) = dTotalW (mem w) /\
   dKWh (mem (loop_report millis w)) = dKWh (mem w) /\
   ulPreviousMillis (mem (loop_report millis w)) = ulPreviousMillis (mem w)) /\
  (60000 <= d ->
   sent (loop_report millis w) =
     sent w ++ [watts (dTotalW (mem w) / to_double (uiIsrCount (mem w)))%float;
                kWh (dKWh (mem w))] /\
   ulPreviousMillis (mem (loop_report millis w)) = millis).
Proof.
  intros Hd ->.
  rewrite loop_report_by_interval, window_elapsed_by_interval.
  rewrite wrap32_elapsed by assumption.
  split; [reflexivity|]. split; intros H.
  - rewrite (proj2 (Z.leb_gt _ _) H). repeat split.
  - rewrite (proj2 (Z.leb_le _ _) H). rewrite run_report_block. split; reflexivity.
Qed.

Lemma loop_report_across_rollover_witness :
  window_elapsed
    (set_ulCurrentMillis 30000 (set_ulPreviousMillis 4294937296 initial)) = true.
Proof.
  destruct (loop_report_across_rollover
              60000 30000 (mkWorld (set_ulPreviousMillis 4294937296 initial) []))
    as (H & _); [cbn; lia | reflexivity |].
  exact H.
Defined.

(** The state a report leaves, after the edges serviced behind it. *)
Lemma report_then_edges millis edges w :
  window_elapsed (set_ulCurrentMillis millis (mem w)) = true ->
  let w1 := on_mem (service edges) (loop_report millis w) in
  ulPreviousMillis (mem w1) = millis /\
  sent w1 =
    sent w ++ [watts (dTotalW (mem w) / to_double (uiIsrCount (mem w)))%float;
               kWh (dKWh (mem w))] /\
  mem w1 =
    service edges
      (mkGlobals millis millis (dPulsePeriod (mem w)) 0%float (ulStartTime (mem w))
                 0%float 0 0%float).
Proof.
  intros H. destruct (loop_report_cases millis w) as [[_ E] | [E _]];
    [|rewrite H in E; discriminate].
  cbv zeta. rewrite E, run_report_block. cbn [mem sent on_mem set_ulCurrentMillis
    ulCurrentMillis dPulsePeriod ulStartTime dTotalW uiIsrCount dKWh].
  rewrite service_ulPreviousMillis. repeat split.
Qed.

(** X8: a report at [m1] starts the next window at [m1], and edges do not
    move it: a pass less than 60000 ms later sends nothing and resets
    nothing, whatever edges were serviced since. *)
Theorem loop_report_once_per_window m1 m2 edges w :
  window_elapsed (set_ulCurrentMillis m1 (mem w)) = true ->
  wrap32 (m2 - m1) < 60000 ->
  let w1 := on_mem (service edges) (loop_report m1 w) in
  sent (loop_report m2 w1) = sent w1 /\
  uiIsrCount (mem (loop_report m2 w1)) = uiIsrCount (mem w1) /\
  dTotalW (mem (loop_report m2 w1)) = dTotalW (mem w1) /\
  dKWh (mem (loop_report m2 w1)) = dKWh (mem w1) /\
  ulPreviousMillis (mem (loop_report m2 w1)) = m1.
Proof.
  intros H1 H2 w1.
  destruct (report_then_edges m1 edges w H1) as (Hp & _). fold w1 in Hp.
  rewrite loop_report_by_interval, Hp, (proj2 (Z.leb_gt _ _) H2).
  repeat split. exact Hp.
Qed.

Lemma loop_report_once_per_window_witness :
  sent (loop_report 119999
          (on_mem (service [70000]) (loop_report 60000 (setup 0 boot)))) =
  [lwt_on; watts nan; kWh 0%float].
Proof.
  destruct (loop_report_once_per_window 60000 119999 [70000] (setup 0 boot))
    as (H & _); [reflexivity | reflexivity |].
  rewrite H. reflexivity.
Defined.

Lemma service_all_rejected edges :
  forall g,
    Forall (fun t => elapsed_ms t g <= 90) edges ->
    uiIsrCount (service edges g) = uiIsrCount g /\
    dTotalW (service edges g) = dTotalW g /\
    dKWh (service edges g) = dKWh g.
Proof.
  induction edges as [|t edges IH]; intros g H; [repeat split|].
  inversion H as [|? ? Ht Hrest]; subst.
  rewrite service_cons.
  assert (E : isr t g = set_dPulsePeriod 0%float g).
  { rewrite isr_by_interval. now rewrite (proj2 (Z.leb_le _ _) Ht). }
  rewrite E. apply (IH (set_dPulsePeriod 0%float g)). exact Hrest.
Qed.

(** X9: when no edge is counted between two reports (none arrives, or all
    are discarded), the second report publishes NaN as the average power and
    0 as the energy. *)
Theorem loop_report_window_without_sample m1 m2 edges w :
  window_elapsed (set_ulCurrentMillis m1 (mem w)) = true ->
  60000 <= wrap32 (m2 - m1) ->
  Forall (fun t => elapsed_ms t (mem w) <= 90) edges ->
  let w1 := on_mem (service edges) (loop_report m1 w) in
  sent (loop_report m2 w1) = sent w1 ++ [watts nan; kWh 0%float].
Proof.
  intros H1 H2 Hr w1.
  destruct (report_then_edges m1 edges w H1) as (Hp & _ & Hm). fold w1 in Hp, Hm.
  rewrite loop_report_by_interval, Hp, (proj2 (Z.leb_le _ _) H2).
  rewrite run_report_block. cbn [sent mem on_mem set_ulCurrentMillis
    dTotalW uiIsrCount dKWh].
  destruct (service_all_rejected edges
              (mkGlobals m1 m1 (dPulsePeriod (mem w)) 0%float (ulStartTime (mem w))
                         0%float 0 0%float) Hr) as (E1 & E2 & E3).
  rewrite Hm, E1, E2, E3. reflexivity.
Qed.

Lemma loop_report_window_without_sample_witness :
  sent (loop_report 60000
          (on_mem (service [40]) (loop_report 4294967290 (setup 0 boot)))) =
  [lwt_on; watts nan; kWh 0%float; watts nan; kWh 0%float].
Proof.
  rewrite (loop_report_window_without_sample 4294967290 60000 [40] (setup 0 boot)).
  - reflexivity.
  - reflexivity.
  - cbn. lia.
  - repeat constructor. cbn. lia.
Defined.

(** ** Reconnecting *)

Lemma setup_mem millis w :
  mem (setup millis w) =
  set_ulPreviousMillis millis (set_ulStartTime millis (mem w)).
Proof. destruct w as [g out]. reflexivity. Qed.

(** X10: a pass of the loop that finds the broker session down runs
    [setup] again: the announcement is sent once more, the totals are kept,
    and both clocks restart, so that edges are timed, and the window
    counted, from the time of the reconnection. *)
Theorem loop_reconnect_restarts_timing millis client_state millis_setup w :
  client_state < 0 ->
  let w0 := loop_report millis w in
  let w' := loop millis client_state millis_setup w in
  sent w' = sent w0 ++ [lwt_on] /\
  uiIsrCount (mem w') = uiIsrCount (mem w0) /\
  dTotalW (mem w') = dTotalW (mem w0) /\
  dKWh (mem w') = dKWh (mem w0) /\
  (forall t,
      uiIsrCount (isr t (mem w')) =
      if wrap32 (t - millis_setup) <=? 90 then uiIsrCount (mem w')
      else wrap32 (uiIsrCount (mem w') + 1)) /\
  (forall m,
      window_elapsed (set_ulCurrentMillis m (mem w')) =
      (60000 <=? wrap32 (m - millis_setup))).
Proof.
  intros H w0 w'. unfold w', loop. fold w0.
  rewrite (proj2 (Z.ltb_lt _ _) H).
  destruct (setup_accumulator millis_setup w0) as (E1 & E2 & E3).
  split; [reflexivity|]. do 3 (split; [assumption|]). split.
  - intros t. rewrite isr_by_interval. unfold elapsed_ms. rewrite setup_mem.
    cbn [ulStartTime set_ulPreviousMillis set_ulStartTime].
    destruct (wrap32 (t - millis_setup) <=? 90); reflexivity.
  - intros m. rewrite window_elapsed_by_interval, setup_mem. reflexivity.
Qed.

Lemma loop_reconnect_restarts_timing_witness :
  sent (loop 30000 (-4) 33000 (setup 0 boot)) = [lwt_on; lwt_on] /\
  window_elapsed (set_ulCurrentMillis 60000 (mem (loop 30000 (-4) 33000 (setup 0 boot))))
  = false.
Proof.
  destruct (loop_reconnect_restarts_timing 30000 (-4) 33000 (setup 0 boot))
    as (H1 & _ & _ & _ & _ & H2); [lia|].
  rewrite H1, H2. split; reflexivity.
Defined.

(** ** What is published *)

Lemma SFltb_signed_zero x : signed_as false x -> SFltb x (S754_zero false) = false.
Proof. destruct x as [s|s| |s m e]; cbn; intros H; try tauto; subst; reflexivity. Qed.

Lemma div_not_below_zero x y :
  nonneg x -> ffinite y -> (x / y <? 0)%float = false.
Proof.
  unfold nonneg, ffinite. rewrite leb_spec, ltb_spec, div_spec.
  change (Prim2SF 0) with (S754_zero false). rewrite SFleb_zero.
  unfold SF64div.
  destruct (Prim2SF x) as [sx|sx| |sx mx ex], (Prim2SF y) as [sy|sy| |sy my ey];
    cbn [ge_zero finite_as]; intros Hx Hy; try tauto; subst; try reflexivity.
  apply SFltb_signed_zero. apply (SFdiv_signed false mx ex false my ey).
Qed.

(** X11: with the accumulator invariant, a pass of the loop either sends
    nothing or sends an average power that is not below zero (it may be NaN)
    and an energy that is [>= 0]. *)
Theorem loop_report_publishes_nothing_negative millis w :
  accumulator_ok (mem w) ->
  sent (loop_report millis w) = sent w \/
  exists p e,
    sent (loop_report millis w) = sent w ++ [watts p; kWh e] /\
    (p <? 0)%float = false /\ (0 <=? e)%float = true.
Proof.
  intros (Hc & Ht & He).
  destruct (loop_report_cases millis w) as [[_ ->] | [_ ->]]; [right | left; reflexivity].
  rewrite run_report_block. cbn [sent mem on_mem set_ulCurrentMillis
    dTotalW uiIsrCount dKWh].
  eexists _, _. split; [reflexivity|]. split; [|exact He].
  apply div_not_below_zero; [exact Ht | apply to_double_finite].
Qed.

Lemma loop_report_publishes_nothing_negative_witness :
  exists p e,
    sent (loop_report 60000 (on_mem (isr 1000) (setup 0 boot))) = [lwt_on; watts p; kWh e] /\
    (p <? 0)%float = false /\ (0 <=? e)%float = true.
Proof.
  destruct (loop_report_publishes_nothing_negative
              60000 (on_mem (isr 1000) (setup 0 boot))) as [H | H].
  - repeat split; cbn; lia.
  - discriminate H.
  - exact H.
Defined.

(** ** Edges that follow a counted edge *)

(** X12: the handler does not restart its clock, so once an edge has been
    counted every later edge is counted too, however close it follows: its
    interval is measured from [ulStartTime], not from the edge before. *)
Theorem isr_accepts_every_later_edge t1 t2 g :
  0 <= ulStartTime g <= t1 -> t1 <= t2 < 2 ^ 32 ->
  90 < elapsed_ms t1 g ->
  measured_period t2 (isr t1 g) = (to_double (t2 - ulStartTime g) / 1000)%float /\
  uiIsrCount (isr t2 (isr t1 g)) = wrap32 (wrap32 (uiIsrCount g + 1) + 1).
Proof.
  intros Hs Ht H1.
  assert (E1 : elapsed_ms t1 g = t1 - ulStartTime g).
  { unfold elapsed_ms, wrap32. apply Z.mod_small. lia. }
  assert (E2 : elapsed_ms t2 (isr t1 g) = t2 - ulStartTime g).
  { unfold elapsed_ms, wrap32. rewrite isr_ulStartTime. apply Z.mod_small. lia. }
  split.
  - change (measured_period t2 (isr t1 g))
      with (to_double (elapsed_ms t2 (isr t1 g)) / 1000)%float.
    now rewrite E2.
  - rewrite (isr_by_interval t2), E2.
    assert (H2 : 90 < t2 - ulStartTime g) by (rewrite E1 in H1; lia).
    rewrite (proj2 (Z.leb_gt _ _) H2).
    cbv zeta. cbn [uiIsrCount].
    rewrite (isr_by_interval t1), (proj2 (Z.leb_gt _ _) H1). reflexivity.
Qed.

Lemma isr_accepts_every_later_edge_witness :
  measured_period 1001 (isr 1000 (mem (setup 0 boot))) = 1.001%float /\
  uiIsrCount (isr 1001 (isr 1000 (mem (setup 0 boot)))) = 2.
Proof.
  destruct (isr_accepts_every_later_edge 1000 1001 (mem (setup 0 boot)))
    as (H1 & H2); [cbn; lia | cbn; lia | reflexivity |].
  rewrite H1, H2. split; reflexivity.
Defined.
